(** * promised-db: a promise wrapper around IndexedDB

    A shallow embedding of the library's TypeScript sources
    ([utils.ts], [cursor.ts], [dbActions.ts], [dbDeclarations.ts]) together
    with a small executable model of the IndexedDB host objects they drive
    (requests, cursors, transactions).

    Callbacks installed on host objects ([onsuccess], [oncomplete], ...)
    become handler functions over an explicit world; the closure variables
    of each [new Promise] body are fields of that world.  Everything a run
    lets the outside observe (host calls, user-callback invocations, the
    settling of the returned promise, uncaught exceptions) is appended to a
    trace. *)

From Stdlib Require Import ZArith List String Bool Lia.
Import ListNotations.
Local Open Scope string_scope.
Local Open Scope list_scope.
Local Open Scope Z_scope.
Set Warnings "-register-all".

(* ================================================================== *)
(** ** JavaScript values *)
(* ================================================================== *)

Module Js.

(** The values that flow through the library.  Numbers are the
    integer-valued ones (offsets, limits, counts and numeric keys are
    integers in the data model), so [NaN] and fractions do not occur. *)
Inductive jsval : Type :=
| VUndefined
| VBool (b : bool)
| VNum (z : Z)
| VStr (s : string)
| VObj (fields : list (string * jsval)).

(** [Boolean(v)], the test of [if (v)] and of [v && ...]. *)
Definition truthy (v : jsval) : bool :=
  match v with
  | VUndefined => false
  | VBool b => b
  | VNum z => negb (z =? 0)
  | VStr s => negb (String.eqb s EmptyString)
  | VObj _ => true
  end.

(** An optional numeric property ([limit?: number]): [None] is [undefined]. *)
Definition of_num (o : option Z) : jsval :=
  match o with
  | Some z => VNum z
  | None => VUndefined
  end.

(** What an [Error] object is, as far as the library distinguishes them. *)
Inductive jserror : Type :=
| Error (message : string)
| UpgradeAttemptBlockedError (message : string)
| NoResultError
| DOMException (name : string).

(** The state of a promise. *)
Inductive promise (T : Type) : Type :=
| Pending
| Resolved (value : T)
| Rejected (reason : jserror).
Arguments Pending {T}.
Arguments Resolved {T} value.
Arguments Rejected {T} reason.

(** [resolve(v)] and [reject(e)] of a promise executor: only the first
    call settles the promise. *)
Definition resolve_with {T} (v : T) (p : promise T) : promise T :=
  match p with
  | Pending => Resolved v
  | _ => p
  end.

Definition reject_with {T} (e : jserror) (p : promise T) : promise T :=
  match p with
  | Pending => Rejected e
  | _ => p
  end.

(** How the promise returned by a user callback ends. *)
Inductive settle : Type :=
| Fulfils (value : jsval)
| Rejects (reason : jserror).

End Js.
Import Js.

(* ================================================================== *)
(** ** The host: IndexedDB keys, ranges, sources, requests, cursors *)
(* ================================================================== *)

Module Host.

(** Valid keys of the model: numbers and strings. *)
Definition valid_key (v : jsval) : bool :=
  match v with
  | VNum _ | VStr _ => true
  | _ => false
  end.

(** The key order of IndexedDB: every number is below every string. *)
Definition key_compare (a b : jsval) : comparison :=
  match a, b with
  | VNum x, VNum y => Z.compare x y
  | VNum _, VStr _ => Lt
  | VStr _, VNum _ => Gt
  | VStr x, VStr y => String.compare x y
  | _, _ => Eq
  end.

Definition key_eqb (a b : jsval) : bool :=
  match key_compare a b with Eq => true | _ => false end.
Definition key_ltb (a b : jsval) : bool :=
  match key_compare a b with Lt => true | _ => false end.
Definition key_leb (a b : jsval) : bool :=
  match key_compare a b with Gt => false | _ => true end.

Record IDBKeyRange : Type := {
  lower : option jsval;
  upper : option jsval;
  lowerOpen : bool;
  upperOpen : bool
}.

(** A query argument: [IDBValidKey | IDBKeyRange]; absent is [None]. *)
Inductive key_query : Type :=
| QKey (k : jsval)
| QRange (r : IDBKeyRange).

Definition in_range (r : IDBKeyRange) (k : jsval) : bool :=
  match lower r with
  | Some lo => if lowerOpen r then key_ltb lo k else key_leb lo k
  | None => true
  end
  &&
  match upper r with
  | Some hi => if upperOpen r then key_ltb k hi else key_leb k hi
  | None => true
  end.

Definition matches (q : option key_query) (k : jsval) : bool :=
  match q with
  | None => true
  | Some (QKey k') => key_eqb k' k
  | Some (QRange r) => in_range r k
  end.

(** One record of a source.  In an object store the key is the primary
    key; in an index the key is the index key. *)
Record record : Type := {
  r_key : jsval;
  r_primaryKey : jsval;
  r_value : jsval
}.

(** An object store or an index: its records in ascending
    (key, primary key) order. *)
Record source : Type := {
  src_is_index : bool;
  src_records : list record
}.

Inductive IDBCursorDirection : Type := next | nextunique | prev | prevunique.

(** Exceptions the host throws out of a method call. *)
Inductive exn : Type :=
| TypeError
| DataError
| InvalidAccessError
| InvalidStateError.

(** [count] of [getAll] / [getAllKeys] is an [unsigned long]: a number
    above 4294967295 makes the call throw a [TypeError]. *)
Definition count_in_range (count : option N) : bool :=
  match count with
  | Some n => (n <=? 4294967295)%N
  | None => true
  end.

(** [count] of [getAll] / [getAllKeys]: absent or zero means no bound. *)
Definition take_count {A} (count : option N) (l : list A) : list A :=
  match count with
  | None | Some 0%N => l
  | Some n => firstn (N.to_nat n) l
  end.

Definition matching (s : source) (q : option key_query) : list record :=
  filter (fun r => matches q (r_key r)) (src_records s).

(** A finished [IDBRequest]: the event it fires carries a result or an
    error. *)
Inductive IDBRequest (T : Type) : Type :=
| Succeeds (result : T)
| Fails (error : jserror).
Arguments Succeeds {T} result.
Arguments Fails {T} error.

(** [IDBObjectStore.getAll] and [IDBIndex.getAll]: the exception the call
    throws, or the request for the stored values. *)
Definition getAll (s : source) (q : option key_query) (count : option N)
  : exn + IDBRequest (list jsval) :=
  if count_in_range count
  then inr (Succeeds (take_count count (map r_value (matching s q))))
  else inl TypeError.

(** [IDBObjectStore.getAllKeys] and [IDBIndex.getAllKeys]: the exception
    the call throws, or the request for the primary keys. *)
Definition getAllKeys (s : source) (q : option key_query) (count : option N)
  : exn + IDBRequest (list jsval) :=
  if count_in_range count
  then inr (Succeeds (take_count count (map r_primaryKey (matching s q))))
  else inl TypeError.

(** Keep the first record of every run of equal keys. *)
Fixpoint unique_keys (l : list record) : list record :=
  match l with
  | [] => []
  | r :: rest =>
      r :: match rest with
           | [] => []
           | r' :: _ =>
               if key_eqb (r_key r) (r_key r')
               then tl (unique_keys rest)
               else unique_keys rest
           end
  end.

(** The records a cursor opened with [query] and [direction] walks
    through, in the order it meets them. *)
Definition cursor_records (s : source) (q : option key_query)
    (d : IDBCursorDirection) : list record :=
  match d with
  | next => matching s q
  | nextunique => unique_keys (matching s q)
  | prev => rev (matching s q)
  | prevunique => rev (unique_keys (matching s q))
  end.

(** A cursor positioned on the record at index [c_pos] of [c_records]. *)
Record IDBCursor : Type := {
  c_is_index : bool;
  c_direction : IDBCursorDirection;
  c_records : list record;
  c_pos : nat
}.

Definition current (c : IDBCursor) : option record :=
  nth_error (c_records c) (c_pos c).

(** [cursor.key], [cursor.primaryKey], [cursor.value]. *)
Definition key (c : IDBCursor) : jsval :=
  match current c with Some r => r_key r | None => VUndefined end.
Definition primaryKey (c : IDBCursor) : jsval :=
  match current c with Some r => r_primaryKey r | None => VUndefined end.
Definition value (c : IDBCursor) : jsval :=
  match current c with Some r => r_value r | None => VUndefined end.

(** The result a cursor request fires with once the cursor has been moved
    to index [i]: the cursor there, or [null] past the end. *)
Definition cursor_at (c : IDBCursor) (i : nat) : option IDBCursor :=
  if (i <? List.length (c_records c))%nat
  then Some {| c_is_index := c_is_index c; c_direction := c_direction c;
               c_records := c_records c; c_pos := i |}
  else None.

(** The cursor request of [openCursor] / [openKeyCursor]. *)
Definition open_cursor (s : source) (q : option key_query)
    (d : option IDBCursorDirection) : option IDBCursor :=
  let dir := match d with Some d => d | None => next end in
  cursor_at {| c_is_index := src_is_index s; c_direction := dir;
               c_records := cursor_records s q dir; c_pos := 0 |} 0.

Definition forwards (d : IDBCursorDirection) : bool :=
  match d with
  | next | nextunique => true
  | prev | prevunique => false
  end.

(** [k] lies at or beyond [target] in the direction of travel. *)
Definition reached (d : IDBCursorDirection) (target k : jsval) : bool :=
  if forwards d then key_leb target k else key_leb k target.

(** [(k, pk)] lies at or beyond [(tk, tpk)] in the direction of travel. *)
Definition reached_pair (d : IDBCursorDirection) (tk tpk k pk : jsval)
  : bool :=
  if forwards d
  then key_ltb tk k || (key_eqb tk k && key_leb tpk pk)
  else key_ltb k tk || (key_eqb tk k && key_leb pk tpk).

(** Index of the first record from index [i] on that satisfies [p];
    the length of the list if there is none. *)
Fixpoint seek (p : record -> bool) (l : list record) (i : nat) : nat :=
  match l with
  | [] => i
  | r :: rest => if p r then i else seek p rest (S i)
  end.

Definition seek_from (p : record -> bool) (c : IDBCursor) : nat :=
  seek p (skipn (S (c_pos c)) (c_records c)) (S (c_pos c)).

(** The calls the library makes on the host. *)
Inductive host_call : Type :=
| OpenKeyCursor (q : option key_query) (d : option IDBCursorDirection)
| OpenCursor (q : option key_query) (d : option IDBCursorDirection)
| Continue (k : jsval)
| ContinuePrimaryKey (k pk : jsval)
| Advance (count : Z).

(** Where [cursor.continue(k)] moves the cursor, or the exception it
    throws; [k = undefined] is the plain advance. *)
Definition continue_target (c : IDBCursor) (k : jsval) : nat + exn :=
  match k with
  | VUndefined => inl (S (c_pos c))
  | _ =>
      if negb (valid_key k) then inr DataError
      else if reached (c_direction c) k (key c) then inr DataError
      else inl (seek_from (fun r => reached (c_direction c) k (r_key r)) c)
  end.

(** [cursor.continuePrimaryKey(k, pk)]: index cursors walking [next] or
    [prev] only, and the target must lie beyond the current position. *)
Definition continuePrimaryKey_target (c : IDBCursor) (k pk : jsval)
  : nat + exn :=
  if negb (c_is_index c) then inr InvalidAccessError
  else match c_direction c with
       | nextunique | prevunique => inr InvalidAccessError
       | d =>
           if negb (valid_key k && valid_key pk) then inr DataError
           else if reached_pair d k pk (key c) (primaryKey c)
           then inr DataError
           else inl (seek_from
                       (fun r => reached_pair d k pk (r_key r) (r_primaryKey r))
                       c)
       end.

(** [cursor.advance(count)]: [count] is an [unsigned long] that must not
    be zero. *)
Definition advance_target (c : IDBCursor) (count : Z) : nat + exn :=
  if (count <=? 0) || (4294967295 <? count) then inr TypeError
  else inl (c_pos c + Z.to_nat count)%nat.

Definition host_accepts (c : IDBCursor) (h : host_call) : bool :=
  match h with
  | Continue k => match continue_target c k with inl _ => true | _ => false end
  | ContinuePrimaryKey k pk =>
      match continuePrimaryKey_target c k pk with inl _ => true | _ => false end
  | Advance n => match advance_target c n with inl _ => true | _ => false end
  | _ => true
  end.

End Host.
Import Host.

(* ================================================================== *)
(** ** utils.ts *)
(* ================================================================== *)

Module Utils.

(** [dbPromise(rq)]: resolves with the request's result on its success
    event, rejects with its error on its error event. *)
Definition dbPromise {T} (rq : IDBRequest T) : promise T :=
  match rq with
  | Succeeds result => resolve_with result Pending
  | Fails error => reject_with error Pending
  end.

End Utils.

(* ================================================================== *)
(** ** cursor.ts *)
(* ================================================================== *)

(** The class [CursorIterator] as of the release that lets the action
    break the iteration (2.3.0 and later).  A user action is an async
    function of the value it is handed: what the model keeps of it is how
    its promise ends.  The transaction stays active for as long as the
    run issues requests. *)
Module Cursor.

Record CursorValue1 : Type := {
  key : jsval;
  primaryKey : jsval
}.

(** The [update] and [delete] capabilities of a [CursorValue2] act on the
    stored data, not on the iteration; they are left out. *)
Record CursorValue2 : Type := {
  value : jsval;
  key2 : jsval;
  primaryKey2 : jsval
}.

(** [from: { key: IK, primaryKey?: PK }]; an absent [primaryKey] is
    [VUndefined]. *)
Record From : Type := {
  from_key : jsval;
  from_primaryKey : jsval
}.

Record CursorIterationOption : Type := {
  from : option From;
  limit : option Z;
  offset : option Z;
  query : option key_query;
  direction : option IDBCursorDirection
}.

(** [options?.offset], [options?.limit], [options?.from?.key], ... *)
Definition get_offset (options : option CursorIterationOption) : option Z :=
  match options with Some o => offset o | None => None end.
Definition get_limit (options : option CursorIterationOption) : option Z :=
  match options with Some o => limit o | None => None end.
Definition get_from (options : option CursorIterationOption) : option From :=
  match options with Some o => from o | None => None end.
Definition get_from_key (options : option CursorIterationOption) : jsval :=
  match get_from options with Some f => from_key f | None => VUndefined end.
Definition get_from_primaryKey (options : option CursorIterationOption)
  : jsval :=
  match get_from options with Some f => from_primaryKey f | None => VUndefined end.
Definition get_query (options : option CursorIterationOption)
  : option key_query :=
  match options with Some o => query o | None => None end.
Definition get_direction (options : option CursorIterationOption)
  : option IDBCursorDirection :=
  match options with Some o => direction o | None => None end.

(** [n < k] and [c >= n] for an optional number [n]; a comparison with
    [undefined] is false. *)
Definition num_lt (n : option Z) (k : Z) : bool :=
  match n with Some z => z <? k | None => false end.
Definition num_reached (c : Z) (n : option Z) : bool :=
  match n with Some z => z <=? c | None => false end.

(** What a run lets the outside observe, oldest first. *)
Inductive obs : Type :=
| Call (h : host_call)
| DeliverKeys (v : CursorValue1)
| DeliverValue (v : CursorValue2)
| ResolveCalled
| RejectCalled (e : jserror)
| Uncaught (e : exn)
| UnhandledRejection (e : jserror).

(** The cursor request [rq]: idle, or about to fire an event. *)
Inductive rq_state : Type :=
| Idle
| Queued (event : IDBRequest (option IDBCursor)).

(** The closure of the promise executor in [#iterateCursor], the promise
    it settles, the request it listens to, and the trace. *)
Record world : Type := {
  offsetNotApplied : bool;
  fromIndexNotApplied : bool;
  curCount : Z;
  returned : promise unit;
  rq : rq_state;
  trace : list obs
}.

Definition set_offsetNotApplied (b : bool) (w : world) : world :=
  {| offsetNotApplied := b; fromIndexNotApplied := fromIndexNotApplied w;
     curCount := curCount w; returned := returned w; rq := rq w;
     trace := trace w |}.
Definition set_fromIndexNotApplied (b : bool) (w : world) : world :=
  {| offsetNotApplied := offsetNotApplied w; fromIndexNotApplied := b;
     curCount := curCount w; returned := returned w; rq := rq w;
     trace := trace w |}.
Definition set_curCount (n : Z) (w : world) : world :=
  {| offsetNotApplied := offsetNotApplied w;
     fromIndexNotApplied := fromIndexNotApplied w;
     curCount := n; returned := returned w; rq := rq w; trace := trace w |}.
Definition set_returned (p : promise unit) (w : world) : world :=
  {| offsetNotApplied := offsetNotApplied w;
     fromIndexNotApplied := fromIndexNotApplied w;
     curCount := curCount w; returned := p; rq := rq w; trace := trace w |}.
Definition set_rq (r : rq_state) (w : world) : world :=
  {| offsetNotApplied := offsetNotApplied w;
     fromIndexNotApplied := fromIndexNotApplied w;
     curCount := curCount w; returned := returned w; rq := r;
     trace := trace w |}.
Definition record_obs (o : obs) (w : world) : world :=
  {| offsetNotApplied := offsetNotApplied w;
     fromIndexNotApplied := fromIndexNotApplied w;
     curCount := curCount w; returned := returned w; rq := rq w;
     trace := trace w ++ [o] |}.

(** Handler code: it reads and writes the world and may be cut short by
    an exception, which keeps the writes made so far. *)
Inductive outcome (A : Type) : Type :=
| Ok (a : A)
| Throws (e : exn).
Arguments Ok {A} a.
Arguments Throws {A} e.

Definition M (A : Type) : Type := world -> outcome A * world.

Definition ret {A} (a : A) : M A := fun w => (Ok a, w).
Definition bind {A B} (m : M A) (k : A -> M B) : M B :=
  fun w =>
    match m w with
    | (Ok a, w') => k a w'
    | (Throws e, w') => (Throws e, w')
    end.
Definition throw {A} (e : exn) : M A := fun w => (Throws e, w).
Definition gets {A} (f : world -> A) : M A := fun w => (Ok (f w), w).
Definition modify (f : world -> world) : M unit := fun w => (Ok tt, f w).

Notation "x <- m ;; k" := (bind m (fun x => k))
  (at level 61, m at next level, right associativity).
Notation "m ;; k" := (bind m (fun _ => k))
  (at level 61, right associativity).

Definition resolve : M unit :=
  modify (fun w => record_obs ResolveCalled
                     (set_returned (resolve_with tt (returned w)) w)).
Definition reject (e : jserror) : M unit :=
  modify (fun w => record_obs (RejectCalled e)
                     (set_returned (reject_with e (returned w)) w)).

(** A cursor method: the call reaches the host, which throws or moves the
    cursor and queues the next success event on the request.  A cursor
    whose request has not fired yet cannot be moved again. *)
Definition move (h : host_call) (c : IDBCursor) (target : nat + exn)
  : M unit :=
  modify (record_obs (Call h)) ;;
  pending <- gets rq ;;
  match pending with
  | Queued _ => throw InvalidStateError
  | Idle =>
      match target with
      | inr e => throw e
      | inl i => modify (set_rq (Queued (Succeeds (cursor_at c i))))
      end
  end.

Definition cursor_continue (c : IDBCursor) (k : jsval) : M unit :=
  move (Continue k) c (continue_target c k).
Definition cursor_continuePrimaryKey (c : IDBCursor) (k pk : jsval)
  : M unit :=
  move (ContinuePrimaryKey k pk) c (continuePrimaryKey_target c k pk).
Definition cursor_advance (c : IDBCursor) (count : Z) : M unit :=
  move (Advance count) c (advance_target c count).

(** The pre-flight checks at the top of [#iterateCursor]. *)
Definition preflight (options : option CursorIterationOption)
  : option jserror :=
  if truthy (of_num (get_offset options)) && num_lt (get_offset options) 1
  then Some (Error "offset must be greater than 0")
  else if truthy (of_num (get_limit options)) && num_lt (get_limit options) 1
  then Some (Error "limit must be greater than 0")
  else None.

(** [action(cursor).then(...)]: the cursor the callback closes over and
    how the action's promise ends. *)
Definition reaction : Type := (IDBCursor * settle)%type.

(** [rq.onsuccess].  It returns the reaction it has registered, if any. *)
Definition onsuccess (action : IDBCursor -> M settle)
    (options : option CursorIterationOption) (result : option IDBCursor)
  : M (option reaction) :=
  match result with
  | Some cursor =>
      fromPending <- gets fromIndexNotApplied ;;
      if fromPending then
        (if truthy (get_from_primaryKey options)
         then cursor_continuePrimaryKey cursor (get_from_key options)
                (get_from_primaryKey options)
         else cursor_continue cursor (get_from_key options)) ;;
        modify (set_fromIndexNotApplied false) ;;
        ret None
      else
        offsetPending <- gets offsetNotApplied ;;
        if offsetPending then
          match get_offset options with
          | Some n => cursor_advance cursor (n - 1)
          | None => throw TypeError
          end ;;
          modify (set_offsetNotApplied false) ;;
          ret None
        else
          modify (fun w => set_curCount (curCount w + 1) w) ;;
          p <- action cursor ;;
          count <- gets curCount ;;
          (if truthy (of_num (get_limit options))
              && num_reached count (get_limit options)
           then resolve else ret tt) ;;
          ret (Some (cursor, p))
  | None => resolve ;; ret None
  end.

(** The callback passed to [then]: it runs once the action's promise is
    fulfilled, with the value [done] it was fulfilled with. *)
Definition action_then (cursor : IDBCursor) (done : jsval) : M unit :=
  if truthy done then resolve
  else cursor_continue cursor VUndefined.

(** [rq.onerror]. *)
Definition onerror (error : jserror) : M unit := reject error.

(** [#iterateCursor]: either the exception thrown before the promise is
    created, or the world right after the promise executor has run.
    [cursorRequester] is the open call it makes and the result the
    request will fire with.  The [action] argument is only used by the
    handlers, which take it themselves. *)
Definition iterateCursor
    (cursorRequester : host_call * option IDBCursor)
    (options : option CursorIterationOption) : jserror + world :=
  match preflight options with
  | Some e => inl e
  | None =>
      inr {| offsetNotApplied := truthy (of_num (get_offset options));
             fromIndexNotApplied := truthy (get_from_key options);
             curCount := 0;
             returned := Pending;
             rq := Queued (Succeeds (snd cursorRequester));
             trace := [Call (fst cursorRequester)] |}
  end.

(** One turn of the event loop: the queued event of [rq] fires, its
    handler runs, then the reaction it registered.  An exception that
    escapes a handler is nobody's to catch. *)
Definition close {A} (r : outcome A * world) : world :=
  match r with
  | (Ok _, w) => w
  | (Throws e, w) => record_obs (Uncaught e) w
  end.

Definition dispatch (action : IDBCursor -> M settle)
    (options : option CursorIterationOption) (w : world) : world :=
  match rq w with
  | Idle => w
  | Queued (Fails error) => close (onerror error (set_rq Idle w))
  | Queued (Succeeds result) =>
      match onsuccess action options result (set_rq Idle w) with
      | (Ok (Some (cursor, Fulfils done)), w') =>
          close (action_then cursor done w')
      | (Ok (Some (_, Rejects e)), w') => record_obs (UnhandledRejection e) w'
      | (Ok None, w') => w'
      | (Throws e, w') => record_obs (Uncaught e) w'
      end
  end.

Fixpoint event_loop (fuel : nat) (action : IDBCursor -> M settle)
    (options : option CursorIterationOption) (w : world) : world :=
  match fuel with
  | O => w
  | S fuel' =>
      match rq w with
      | Idle => w
      | Queued _ => event_loop fuel' action options (dispatch action options w)
      end
  end.

(** The action [iterateKeys] hands to [#iterateCursor]:
    [async (cursor) => { await action({key, primaryKey}) }]. *)
Definition keys_action (action : CursorValue1 -> settle) (cursor : IDBCursor)
  : M settle :=
  let v := {| key := Host.key cursor; primaryKey := Host.primaryKey cursor |} in
  modify (record_obs (DeliverKeys v)) ;;
  ret (match action v with
       | Fulfils _ => Fulfils VUndefined
       | Rejects e => Rejects e
       end).

(** The action [iterateValues] hands to [#iterateCursor]. *)
Definition values_action (action : CursorValue2 -> settle) (cursor : IDBCursor)
  : M settle :=
  let v := {| value := Host.value cursor; key2 := Host.key cursor;
              primaryKey2 := Host.primaryKey cursor |} in
  modify (record_obs (DeliverValue v)) ;;
  ret (match action v with
       | Fulfils _ => Fulfils VUndefined
       | Rejects e => Rejects e
       end).

(** [iterateKeys(action, options)] on the iterator of [cursorProvider],
    followed by [fuel] turns of the event loop. *)
Definition iterateKeys (cursorProvider : source) (fuel : nat)
    (action : CursorValue1 -> settle)
    (options : option CursorIterationOption) : jserror + world :=
  match iterateCursor
          (OpenKeyCursor (get_query options) (get_direction options),
           open_cursor cursorProvider (get_query options)
             (get_direction options))
          options with
  | inl e => inl e
  | inr w => inr (event_loop fuel (keys_action action) options w)
  end.

(** [iterateValues(action, options)], likewise. *)
Definition iterateValues (cursorProvider : source) (fuel : nat)
    (action : CursorValue2 -> settle)
    (options : option CursorIterationOption) : jserror + world :=
  match iterateCursor
          (OpenCursor (get_query options) (get_direction options),
           open_cursor cursorProvider (get_query options)
             (get_direction options))
          options with
  | inl e => inl e
  | inr w => inr (event_loop fuel (values_action action) options w)
  end.

(** ** Reading a trace *)

Definition delivered_key (o : obs) : option jsval :=
  match o with
  | DeliverKeys v => Some (key v)
  | DeliverValue v => Some (key2 v)
  | _ => None
  end.

(** The keys handed to the user callback, in order. *)
Fixpoint delivered (t : list obs) : list jsval :=
  match t with
  | [] => []
  | o :: rest =>
      match delivered_key o with
      | Some k => k :: delivered rest
      | None => delivered rest
      end
  end.

Definition is_move (o : obs) : bool :=
  match o with
  | Call (Continue _) | Call (ContinuePrimaryKey _ _) | Call (Advance _) => true
  | _ => false
  end.

(** The part of a trace that follows the first [resolve()]. *)
Fixpoint after_resolve (t : list obs) : list obs :=
  match t with
  | [] => []
  | ResolveCalled :: rest => rest
  | _ :: rest => after_resolve rest
  end.

(** The part of a trace that follows the delivery of key [k]. *)
Fixpoint after_delivery (k : jsval) (t : list obs) : list obs :=
  match t with
  | [] => []
  | o :: rest =>
      match delivered_key o with
      | Some k' => if key_eqb k k' then rest else after_delivery k rest
      | None => after_delivery k rest
      end
  end.

(** An object store whose records have the given numeric keys. *)
Definition store_of_keys (keys : list Z) : source :=
  {| src_is_index := false;
     src_records :=
       map (fun k => {| r_key := VNum k; r_primaryKey := VNum k;
                        r_value := VObj [("id", VNum k)] |}) keys |}.

Definition no_options : CursorIterationOption :=
  {| from := None; limit := None; offset := None; query := None;
     direction := None |}.

Definition with_limit (n : Z) : CursorIterationOption :=
  {| from := None; limit := Some n; offset := None; query := None;
     direction := None |}.

Definition with_offset (n : Z) : CursorIterationOption :=
  {| from := None; limit := None; offset := Some n; query := None;
     direction := None |}.

Definition with_from (k pk : jsval) : CursorIterationOption :=
  {| from := Some {| from_key := k; from_primaryKey := pk |}; limit := None;
     offset := None; query := None; direction := None |}.

(** The store of the examples: keys 1 to 5. *)
Definition five_keys : source := store_of_keys [1; 2; 3; 4; 5].

(** A user callback that asks to stop at key 3:
    [async (v) => { if (v.key === 3) return true }]. *)
Definition stop_at_3 (v : CursorValue1) : settle :=
  match key v with
  | VNum 3 => Fulfils (VBool true)
  | _ => Fulfils VUndefined
  end.

(** A user callback that returns nothing: [async (v) => {}]. *)
Definition keep_going (v : CursorValue1) : settle := Fulfils VUndefined.

(** A call that threw, or a run whose request has nothing queued. *)
Definition quiescent (r : jserror + world) : bool :=
  match r with
  | inl _ => true
  | inr w => match rq w with Idle => true | Queued _ => false end
  end.

(** A computation that leaves the trace as it was or longer. *)
Definition grows {A} (m : M A) : Prop :=
  forall w, exists t, trace (snd (m w)) = trace w ++ t.

End Cursor.

(* ================================================================== *)
(** ** dbActions.ts *)
(* ================================================================== *)

Module DbActions.

Import Utils.

(** [obj[name]] for a stored object. *)
Fixpoint lookup_field (name : string) (fields : list (string * jsval))
  : jsval :=
  match fields with
  | [] => VUndefined
  | (n, v) :: rest => if String.eqb n name then v else lookup_field name rest
  end.

Definition get_field (name : string) (v : jsval) : jsval :=
  match v with
  | VObj fields => lookup_field name fields
  | _ => VUndefined
  end.

(** The records of an index stay ordered by (key, primary key). *)
Fixpoint insert_record (r : record) (l : list record) : list record :=
  match l with
  | [] => [r]
  | r' :: rest =>
      if key_ltb (r_key r') (r_key r)
         || (key_eqb (r_key r') (r_key r)
             && key_leb (r_primaryKey r') (r_primaryKey r))
      then r' :: insert_record r rest
      else r :: l
  end.

(** The host's index over [store] on the property [keyPath]: one record
    for every stored value that has a valid key there. *)
Definition host_index (store : source) (keyPath : string) : source :=
  {| src_is_index := true;
     src_records :=
       fold_right
         (fun r acc =>
            if valid_key (get_field keyPath (r_value r))
            then insert_record
                   {| r_key := get_field keyPath (r_value r);
                      r_primaryKey := r_primaryKey r;
                      r_value := r_value r |} acc
            else acc)
         [] (src_records store) |}.

(** [dbPromise(call)] where the host call itself may throw: the method
    is not [async], so the exception leaves it before any promise
    exists. *)
Definition promised {T} (call : exn + IDBRequest T) : exn + promise T :=
  match call with
  | inl e => inl e
  | inr rq => inr (dbPromise rq)
  end.

Module ObjectStore.

(** The private field [#objectStore]. *)
Record t : Type := { objectStore : source }.

Definition getAll (this : t) (query : option key_query) (count : option N)
  : exn + promise (list jsval) :=
  promised (Host.getAll (objectStore this) query count).

Definition getAllPrimaryKeys (this : t) (query : option key_query)
    (count : option N) : exn + promise (list jsval) :=
  promised (Host.getAllKeys (objectStore this) query count).

End ObjectStore.

Module Index.

(** The private field [#index]. *)
Record t : Type := { index : source }.

Definition getAll (this : t) (query : option key_query) (count : option N)
  : exn + promise (list jsval) :=
  promised (Host.getAll (index this) query count).

Definition getAllPrimaryKeys (this : t) (query : option key_query)
    (count : option N) : exn + promise (list jsval) :=
  promised (Host.getAll (index this) query count).

End Index.

(** [ObjectStore.index(indexDef)] for an index on [keyPath]. *)
Definition index_on (store : ObjectStore.t) (keyPath : string) : Index.t :=
  {| Index.index := host_index (ObjectStore.objectStore store) keyPath |}.

(** Two to-do tasks, keyed by [id], and the index on [name]. *)
Definition task (id : Z) (name : string) : record :=
  {| r_key := VNum id; r_primaryKey := VNum id;
     r_value := VObj [("id", VNum id); ("name", VStr name)] |}.

Definition todo_tasks : ObjectStore.t :=
  {| ObjectStore.objectStore :=
       {| src_is_index := false;
          src_records := [task 1 "water"; task 2 "bread"] |} |}.

End DbActions.

(* ================================================================== *)
(** ** dbDeclarations.ts *)
(* ================================================================== *)

Module DbDeclarations.

(** *** [Database.transaction] *)

(** The action is an async function, and the host call that opens the
    transaction succeeds. *)

(** What happens to a transaction wrapper after it has started the
    action: the host reports the transaction complete, the action's
    promise is fulfilled or rejected, or the transaction is aborted (by
    the host after a failed request, or through the handle's [abort]). *)
Inductive event : Type :=
| Complete
| ActionFulfilled (out : jsval)
| ActionRejected (e : jserror)
| Aborted.

Inductive obs : Type :=
| CallAbort
| ResolveCalled (v : jsval)
| RejectCalled (e : jserror)
| Uncaught (e : exn).

(** The closure of the promise executor in [transaction], the promise it
    settles, whether the host transaction has finished, and the trace. *)
Record world : Type := {
  actionCompleted : bool;
  result : jsval;
  returned : promise jsval;
  finished : bool;
  trace : list obs
}.

Definition mismatch : jserror :=
  Error "Transaction completed before action function completed".

(** The state right after the executor has run: the host transaction is
    open, [oncomplete] is installed, the action has been called. *)
Definition transaction : world :=
  {| actionCompleted := false; result := VUndefined; returned := Pending;
     finished := false; trace := [] |}.

Definition resolve (v : jsval) (w : world) : world :=
  {| actionCompleted := actionCompleted w; result := result w;
     returned := resolve_with v (returned w); finished := finished w;
     trace := trace w ++ [ResolveCalled v] |}.

Definition reject (e : jserror) (w : world) : world :=
  {| actionCompleted := actionCompleted w; result := result w;
     returned := reject_with e (returned w); finished := finished w;
     trace := trace w ++ [RejectCalled e] |}.

Definition finish (w : world) : world :=
  {| actionCompleted := actionCompleted w; result := result w;
     returned := returned w; finished := true; trace := trace w |}.

Definition record_obs (o : obs) (w : world) : world :=
  {| actionCompleted := actionCompleted w; result := result w;
     returned := returned w; finished := finished w;
     trace := trace w ++ [o] |}.

(** [transaction.oncomplete]. *)
Definition oncomplete (w : world) : world :=
  if negb (actionCompleted w) then reject mismatch w
  else resolve (result w) w.

(** The callback passed to [then]. *)
Definition on_fulfilled (out : jsval) (w : world) : world :=
  {| actionCompleted := true; result := out; returned := returned w;
     finished := finished w; trace := trace w |}.

(** The callback passed to [catch].  The host's [abort()] throws
    [InvalidStateError] on a finished transaction, which cuts the
    callback short. *)
Definition on_rejected (e : jserror) (w : world) : world :=
  let w := record_obs CallAbort w in
  if finished w then record_obs (Uncaught InvalidStateError) w
  else reject e (finish w).

Definition step (w : world) (ev : event) : world :=
  match ev with
  | Complete => oncomplete (finish w)
  | ActionFulfilled out => on_fulfilled out w
  | ActionRejected e => on_rejected e w
  | Aborted => finish w
  end.

Definition run (events : list event) : world :=
  fold_left step events transaction.

Definition action_settles (ev : event) : bool :=
  match ev with
  | ActionFulfilled _ | ActionRejected _ => true
  | _ => false
  end.

Definition closes (ev : event) : bool :=
  match ev with
  | Complete | Aborted => true
  | _ => false
  end.

(** What the closure variables say about the events seen so far. *)
Definition consistent (l : list event) (w : world) : Prop :=
  (actionCompleted w = true -> In (ActionFulfilled (result w)) l)
  /\ (forall v, returned w = Resolved v ->
        exists pre post,
          l = pre ++ Complete :: post /\ In (ActionFulfilled v) pre).

(** *** [DatabaseDef.open] *)

(** The release that installs [rq.onblocked] (3.1.2). *)

Record IDBDatabase : Type := { db_name : string; db_version : Z }.

(** The class [Database]: the private field [#db]. *)
Record Database : Type := { db : IDBDatabase }.

Record DatabaseDef : Type := { name : string; version : Z }.

(** The events of the open request. *)
Inductive open_event : Type :=
| UpgradeNeeded (oldVersion : Z) (newVersion : option Z)
| Success
| OpenError (e : jserror)
| Blocked.

Inductive open_obs : Type :=
| CallOpen (name : string) (version : Z)
| Upgrader (d : Database) (oldVersion : Z) (newVersion : option Z).

Record open_world : Type := {
  opened : promise Database;
  open_trace : list open_obs
}.

(** [rq.result] of the open request. *)
Definition opened_db (def : DatabaseDef) : Database :=
  {| db := {| db_name := name def; db_version := version def |} |}.

Definition open_step (def : DatabaseDef) (w : open_world) (ev : open_event)
  : open_world :=
  match ev with
  | UpgradeNeeded oldVersion newVersion =>
      {| opened := opened w;
         open_trace :=
           open_trace w ++ [Upgrader (opened_db def) oldVersion newVersion] |}
  | Success =>
      {| opened := resolve_with (opened_db def) (opened w);
         open_trace := open_trace w |}
  | OpenError e =>
      {| opened := reject_with e (opened w); open_trace := open_trace w |}
  | Blocked =>
      {| opened := reject_with (UpgradeAttemptBlockedError "up") (opened w);
         open_trace := open_trace w |}
  end.

(** [open()], followed by the events of its request. *)
Definition open (def : DatabaseDef) (events : list open_event) : open_world :=
  fold_left (open_step def) events
    {| opened := Pending;
       open_trace := [CallOpen (name def) (version def)] |}.

Definition open_settles (ev : open_event) : bool :=
  match ev with
  | Success | OpenError _ => true
  | _ => false
  end.

End DbDeclarations.

(* ================================================================== *)
(** ** cursor.ts: what a plain run looks like *)
(* ================================================================== *)

Module CursorRuns.

Import Cursor.

(** The cursor over [rs] at index [i], or [null] past the end. *)
Definition at_pos (is_index : bool) (d : IDBCursorDirection)
    (rs : list record) (i : nat) : option IDBCursor :=
  cursor_at {| c_is_index := is_index; c_direction := d; c_records := rs;
               c_pos := 0 |} i.

(** The test [options?.limit && curCount >= options.limit]. *)
Definition limit_reached (options : option CursorIterationOption)
    (count : Z) : bool :=
  truthy (of_num (get_limit options)) && num_reached count (get_limit options).

(** What [iterateKeys] and [iterateValues] hand to the user for a record. *)
Definition deliver_keys (r : record) : obs :=
  DeliverKeys {| key := r_key r; primaryKey := r_primaryKey r |}.
Definition deliver_value (r : record) : obs :=
  DeliverValue {| value := r_value r; key2 := r_key r;
                  primaryKey2 := r_primaryKey r |}.

(** The trace of the iterating phase over the records [rs], written as a
    plain recursion: every record is delivered, [resolve()] is called when
    the count has reached the limit, [cursor.continue()] follows, and the
    exhausted cursor ends the run with a [resolve()]. *)
Fixpoint turns (deliver : record -> obs)
    (options : option CursorIterationOption) (count : Z) (rs : list record)
  : list obs :=
  match rs with
  | [] => [ResolveCalled]
  | r :: rest =>
      deliver r
      :: (if limit_reached options (count + 1) then [ResolveCalled] else [])
      ++ Call (Continue VUndefined)
      :: turns deliver options (count + 1) rest
  end.


(** A user action whose promise is always fulfilled. *)
Definition always_fulfils {A} (action : A -> settle) : Prop :=
  forall v, exists r, action v = Fulfils r.

(** The stored values handed to the user callback, in order. *)
Fixpoint delivered_values (t : list obs) : list jsval :=
  match t with
  | [] => []
  | DeliverValue v :: rest => value v :: delivered_values rest
  | _ :: rest => delivered_values rest
  end.

(** A call that seeks: [cursor.continue(key)] with a key, or
    [cursor.continuePrimaryKey(key, primaryKey)]. *)
Definition is_seek (o : obs) : bool :=
  match o with
  | Call (Continue VUndefined) => false
  | Call (Continue _) => true
  | Call (ContinuePrimaryKey _ _) => true
  | _ => false
  end.

(** No seek is pending and none has been issued. *)
Definition no_seek (w : world) : Prop :=
  fromIndexNotApplied w = false /\ filter is_seek (trace w) = [].

(** A computation that keeps [no_seek]. *)
Definition keeps_no_seek {A} (m : M A) : Prop :=
  forall w, no_seek w -> no_seek (snd (m w)).

(** The options of the examples: a seek next to an offset. *)
Definition with_from_and_offset (k : jsval) (n : Z) : CursorIterationOption :=
  {| from := Some {| from_key := k; from_primaryKey := VUndefined |};
     limit := None; offset := Some n; query := None; direction := None |}.

(** The records a run with [options] walks through on source [p]. *)
Definition walk (p : source) (options : option CursorIterationOption)
  : list record :=
  cursor_records p (get_query options)
    (match get_direction options with Some d => d | None => next end).



(** The closure variable [curCount] counts the deliveries. *)
Definition counted (w : world) : Prop :=
  curCount w = Z.of_nat (List.length (delivered (trace w))).

(** A computation that leaves a settled promise alone. *)
Definition keeps_settled {A} (m : M A) : Prop :=
  forall w, returned w <> Pending -> returned (snd (m w)) = returned w.

(** How far [curCount] is ahead of the deliveries on the trace. *)
Definition skew (w : world) : Z :=
  curCount w - Z.of_nat (List.length (delivered (trace w))).

(** A computation that moves the skew by [n]. *)
Definition shifts {A} (n : Z) (m : M A) : Prop :=
  forall w, skew (snd (m w)) = skew w + n.

(** A computation that throws nothing. *)
Definition total {A} (m : M A) : Prop :=
  forall w, exists a, fst (m w) = Ok a.

(** An action that delivers once and throws nothing, as the wrappers of
    [iterateKeys] and [iterateValues] do. *)
Definition delivers_once (action : IDBCursor -> M settle) : Prop :=
  forall c, shifts (-1) (action c) /\ total (action c)
            /\ keeps_settled (action c).

End CursorRuns.

(* ================================================================== *)
(** ** dbActions.ts: point lookups *)
(* ================================================================== *)

Module Lookups.

Import Utils.

(** [IDBObjectStore.get] and [IDBIndex.get]: the value of the first
    record in the query, or [undefined]. *)
Definition host_get (s : source) (q : key_query) : IDBRequest jsval :=
  Succeeds (match matching s (Some q) with
            | r :: _ => r_value r
            | [] => VUndefined
            end).

(** [IDBObjectStore.getKey] and [IDBIndex.getKey]: the primary key of the
    first record in the query, or [undefined]. *)
Definition host_getKey (s : source) (q : key_query) : IDBRequest jsval :=
  Succeeds (match matching s (Some q) with
            | r :: _ => r_primaryKey r
            | [] => VUndefined
            end).

(** [v === undefined]. *)
Definition is_undefined (v : jsval) : bool :=
  match v with
  | VUndefined => true
  | _ => false
  end.

(** The body of [requireGet] after [await dbPromise(rq)]. *)
Definition require (p : promise jsval) : promise jsval :=
  match p with
  | Resolved result =>
      if negb (is_undefined result) then Resolved result
      else Rejected NoResultError
  | Rejected e => Rejected e
  | Pending => Pending
  end.

Module ObjectStore.

Definition get (this : DbActions.ObjectStore.t) (query : key_query)
  : promise jsval :=
  dbPromise (host_get (DbActions.ObjectStore.objectStore this) query).

Definition requireGet (this : DbActions.ObjectStore.t) (key : key_query)
  : promise jsval :=
  require (dbPromise (host_get (DbActions.ObjectStore.objectStore this) key)).

Definition getPrimaryKey (this : DbActions.ObjectStore.t) (query : key_query)
  : promise jsval :=
  dbPromise (host_getKey (DbActions.ObjectStore.objectStore this) query).

End ObjectStore.

Module Index.

Definition get (this : DbActions.Index.t) (key : key_query) : promise jsval :=
  dbPromise (host_get (DbActions.Index.index this) key).

Definition requireGet (this : DbActions.Index.t) (key : key_query)
  : promise jsval :=
  require (dbPromise (host_get (DbActions.Index.index this) key)).

Definition getPrimaryKey (this : DbActions.Index.t) (key : key_query)
  : promise jsval :=
  dbPromise (host_getKey (DbActions.Index.index this) key).

End Index.

End Lookups.

(* ================================================================== *)
(** ** dbActions.ts: creating and deleting indexes *)
(* ================================================================== *)

Module Schema.

(** What the host knows about an object store's indexes: their names,
    and whether the store's transaction is an upgrade transaction. *)
Record IDBObjectStore : Type := {
  indexNames : list string;
  upgrading : bool
}.

Definition has_index (name : string) (store : IDBObjectStore) : bool :=
  existsb (String.eqb name) (indexNames store).

(** [IDBObjectStore.deleteIndex(name)]: the exception it throws, or the
    store without the index. *)
Definition host_deleteIndex (name : string) (store : IDBObjectStore)
  : jserror + IDBObjectStore :=
  if negb (upgrading store) then inl (DOMException "InvalidStateError")
  else if has_index name store
  then inr {| indexNames :=
                filter (fun n => negb (String.eqb name n)) (indexNames store);
              upgrading := upgrading store |}
  else inl (DOMException "NotFoundError").

(** [IDBObjectStore.createIndex(name, keyPath, options)]. *)
Definition host_createIndex (name : string) (store : IDBObjectStore)
  : jserror + IDBObjectStore :=
  if negb (upgrading store) then inl (DOMException "InvalidStateError")
  else if has_index name store then inl (DOMException "ConstraintError")
  else inr {| indexNames := indexNames store ++ [name];
              upgrading := upgrading store |}.

(** [ObjectStore.createIndex(indexDef)] and [ObjectStore.deleteIndex(indexDef)],
    for an index definition named [name]. *)
Definition createIndex (name : string) (store : IDBObjectStore)
  : jserror + IDBObjectStore :=
  host_createIndex name store.

Definition deleteIndex (name : string) (store : IDBObjectStore)
  : jserror + IDBObjectStore :=
  host_deleteIndex name store.

(** [ObjectStore.tryDeleteIndex(name)]: what it returns or throws, and the
    store afterwards. *)
Definition tryDeleteIndex (name : string) (store : IDBObjectStore)
  : (jserror + bool) * IDBObjectStore :=
  match host_deleteIndex name store with
  | inr store' => (inr true, store')
  | inl e =>
      match e with
      | DOMException n =>
          if String.eqb n "NotFoundError" then (inr false, store)
          else (inl e, store)
      | _ => (inl e, store)
      end
  end.

End Schema.

(* ================================================================== *)
(** ** dbDeclarations.ts: [deleteDatabase] *)
(* ================================================================== *)

Module DeleteDatabase.

(** The events of the delete request.  Only [onsuccess] and [onerror] are
    installed; a [blocked] event finds no handler. *)
Inductive delete_event : Type :=
| DeleteSuccess
| DeleteError (e : jserror)
| DeleteBlocked.

Definition delete_step (p : promise unit) (ev : delete_event) : promise unit :=
  match ev with
  | DeleteSuccess => resolve_with tt p
  | DeleteError e => reject_with e p
  | DeleteBlocked => p
  end.

(** [deleteDatabase(databaseName)], followed by the events of its
    request. *)
Definition deleteDatabase (databaseName : string)
    (events : list delete_event) : promise unit :=
  fold_left delete_step events Pending.

Definition is_blocked (ev : delete_event) : bool :=
  match ev with
  | DeleteBlocked => true
  | _ => false
  end.

End DeleteDatabase.

(* ================================================================== *)
(** ** dbDeclarations.ts: reading the runs of [open] and [transaction] *)
(* ================================================================== *)

Module Readings.

Import DbDeclarations.

(** The upgrader call an event of the open request leads to. *)
Definition upgrade_of (def : DatabaseDef) (ev : open_event)
  : list open_obs :=
  match ev with
  | UpgradeNeeded oldVersion newVersion =>
      [Upgrader (opened_db def) oldVersion newVersion]
  | _ => []
  end.

Definition is_upgrade (ev : open_event) : bool :=
  match ev with
  | UpgradeNeeded _ _ => true
  | _ => false
  end.

Definition is_abort_call (o : obs) : bool :=
  match o with
  | CallAbort => true
  | _ => false
  end.

Definition is_rejection (ev : event) : bool :=
  match ev with
  | ActionRejected _ => true
  | _ => false
  end.

Definition is_complete (ev : event) : bool :=
  match ev with
  | Complete => true
  | _ => false
  end.

End Readings.

(* ================================================================== *)
(** ** PromisedDb.ts: the iteration methods of the single-file release *)
(* ================================================================== *)

(** [ObjectStore.iterate], [ObjectStore.iterateKeys],
    [Index.iterateObjects] and [Index.iterateIndexKeys] share one body,
    up to the cursor they open and the value getter they pass on:
    [action(new CursorCurrentValue(cursor, getter))
       .then((skip) => { if (skip) resolve() else cursor.continue() })
       .catch(reject)]. *)
Module PromisedDb.

(** What the action can read off a [CursorCurrentValue]: the result of
    its value getter and [primaryKey()]. *)
Record CursorCurrentValue : Type := {
  value : jsval;
  primaryKey : jsval
}.

(** What the promise can be rejected with: an error object, or an
    exception caught by [catch]. *)
Inductive reason : Type :=
| Err (e : jserror)
| Exn (e : exn).

Inductive state : Type :=
| Unsettled
| Done
| Failed (r : reason).

Inductive obs : Type :=
| Open (with_value : bool) (q : option key_query)
    (d : option IDBCursorDirection)
| Deliver (v : CursorCurrentValue)
| ContinueCalled.

Record world : Type := {
  settled : state;
  rq : Cursor.rq_state;
  trace : list obs
}.

Definition resolve (w : world) : world :=
  {| settled := match settled w with Unsettled => Done | s => s end;
     rq := rq w; trace := trace w |}.

Definition reject (r : reason) (w : world) : world :=
  {| settled := match settled w with Unsettled => Failed r | s => s end;
     rq := rq w; trace := trace w |}.

(** [cursor.continue()] inside the [then] callback: an exception it
    throws is caught by [catch(reject)]. *)
Definition cursor_continue (cursor : IDBCursor) (w : world) : world :=
  let w := {| settled := settled w; rq := rq w;
              trace := trace w ++ [ContinueCalled] |} in
  match rq w with
  | Cursor.Queued _ => reject (Exn InvalidStateError) w
  | Cursor.Idle =>
      match continue_target cursor VUndefined with
      | inl i =>
          {| settled := settled w;
             rq := Cursor.Queued (Succeeds (cursor_at cursor i));
             trace := trace w |}
      | inr e => reject (Exn e) w
      end
  end.

(** [rq.onsuccess], with the reaction to the action's promise. *)
Definition onsuccess (getter : IDBCursor -> jsval)
    (action : CursorCurrentValue -> settle) (result : option IDBCursor)
    (w : world) : world :=
  match result with
  | Some cursor =>
      let v := {| value := getter cursor;
                  primaryKey := Host.primaryKey cursor |} in
      let w := {| settled := settled w; rq := rq w;
                  trace := trace w ++ [Deliver v] |} in
      match action v with
      | Fulfils skip =>
          if truthy skip then resolve w else cursor_continue cursor w
      | Rejects e => reject (Err e) w
      end
  | None => resolve w
  end.

Definition dispatch (getter : IDBCursor -> jsval)
    (action : CursorCurrentValue -> settle) (w : world) : world :=
  match rq w with
  | Cursor.Idle => w
  | Cursor.Queued ev =>
      let w := {| settled := settled w; rq := Cursor.Idle;
                  trace := trace w |} in
      match ev with
      | Succeeds result => onsuccess getter action result w
      | Fails error => reject (Err error) w
      end
  end.

Fixpoint event_loop (fuel : nat) (getter : IDBCursor -> jsval)
    (action : CursorCurrentValue -> settle) (w : world) : world :=
  match fuel with
  | O => w
  | S fuel' =>
      match rq w with
      | Cursor.Idle => w
      | Cursor.Queued _ => event_loop fuel' getter action (dispatch getter action w)
      end
  end.

(** The shared body, followed by [fuel] turns of the event loop. *)
Definition iterate_with (with_value : bool) (getter : IDBCursor -> jsval)
    (s : source) (query : option key_query)
    (direction : option IDBCursorDirection) (fuel : nat)
    (action : CursorCurrentValue -> settle) : world :=
  event_loop fuel getter action
    {| settled := Unsettled;
       rq := Cursor.Queued (Succeeds (open_cursor s query direction));
       trace := [Open with_value query direction] |}.

Module ObjectStore.

(** [iterate(action, direction)]: [openCursor(null, direction)]. *)
Definition iterate (objectStore : source) (fuel : nat)
    (action : CursorCurrentValue -> settle)
    (direction : option IDBCursorDirection) : world :=
  iterate_with true Host.value objectStore None direction fuel action.

(** [iterateKeys(action, direction)]: [openKeyCursor(null, direction)]. *)
Definition iterateKeys (objectStore : source) (fuel : nat)
    (action : CursorCurrentValue -> settle)
    (direction : option IDBCursorDirection) : world :=
  iterate_with false Host.key objectStore None direction fuel action.

End ObjectStore.

Module Index.

Definition iterateObjects (index : source) (fuel : nat)
    (action : CursorCurrentValue -> settle) (query : option key_query)
    (direction : option IDBCursorDirection) : world :=
  iterate_with true Host.value index query direction fuel action.

Definition iterateIndexKeys (index : source) (fuel : nat)
    (action : CursorCurrentValue -> settle) (query : option key_query)
    (direction : option IDBCursorDirection) : world :=
  iterate_with false Host.key index query direction fuel action.

End Index.

(** What the action reads off the cursor at record [r]. *)
Definition current_value (field : record -> jsval) (r : record)
  : CursorCurrentValue :=
  {| value := field r; primaryKey := r_primaryKey r |}.

(** The values handed to the action, in order. *)
Fixpoint deliveries (t : list obs) : list CursorCurrentValue :=
  match t with
  | [] => []
  | Deliver v :: rest => v :: deliveries rest
  | _ :: rest => deliveries rest
  end.

(** The action asks to go on at [r]: its promise is fulfilled with a
    falsy value. *)
Definition goes_on (field : record -> jsval)
    (action : CursorCurrentValue -> settle) (r : record) : bool :=
  match action (current_value field r) with
  | Fulfils skip => negb (truthy skip)
  | Rejects _ => false
  end.

(** The same iteration written as a plain recursion over the records:
    the trace after the open call, and how the promise ends. *)
Fixpoint outline (field : record -> jsval)
    (action : CursorCurrentValue -> settle) (rs : list record)
  : list obs * state :=
  match rs with
  | [] => ([], Done)
  | r :: rest =>
      let v := current_value field r in
      match action v with
      | Fulfils skip =>
          if truthy skip then ([Deliver v], Done)
          else (Deliver v :: ContinueCalled
                  :: fst (outline field action rest),
                snd (outline field action rest))
      | Rejects e => ([Deliver v], Failed (Err e))
      end
  end.

End PromisedDb.

(* ================================================================== *)
(** ** Properties of [Database.transaction] *)
(* ================================================================== *)

Module TransactionFacts.

Import DbDeclarations.

Lemma run_snoc (l : list event) (ev : event) :
  run (l ++ [ev]) = step (run l) ev.
Proof. unfold run. now rewrite fold_left_app. Qed.

Lemma run_app (l l' : list event) :
  run (l ++ l') = fold_left step l' (run l).
Proof. unfold run. now rewrite fold_left_app. Qed.

Lemma resolve_with_settled {T} (v : T) (p : promise T) :
  p <> Pending -> resolve_with v p = p.
Proof. destruct p; simpl; congruence. Qed.

Lemma reject_with_settled {T} (e : jserror) (p : promise T) :
  p <> Pending -> reject_with e p = p.
Proof. destruct p; simpl; congruence. Qed.

(** A settled promise stays as it is, whatever happens next. *)
Lemma step_settled (w : world) (ev : event) :
  returned w <> Pending -> returned (step w ev) = returned w.
Proof.
  intros Hs. destruct ev; simpl; trivial.
  - unfold oncomplete. destruct (negb _); simpl.
    + now apply reject_with_settled.
    + now apply resolve_with_settled.
  - unfold on_rejected. simpl. destruct (finished w); simpl; trivial.
    now apply reject_with_settled.
Qed.

Lemma steps_settled (l : list event) (w : world) :
  returned w <> Pending -> returned (fold_left step l w) = returned w.
Proof.
  revert w. induction l as [|ev l IH]; intros w Hs; simpl; trivial.
  rewrite IH; rewrite step_settled; trivial.
Qed.

Lemma run_consistent (l : list event) : consistent l (run l).
Proof.
  induction l as [|ev l [IHa IHr]] using rev_ind.
  - split; simpl; [discriminate | intros v H; discriminate].
  - rewrite run_snoc. set (w := run l) in *.
    assert (Hkeep : forall v, returned w = Resolved v ->
              exists pre post,
                l ++ [ev] = pre ++ Complete :: post
                /\ In (ActionFulfilled v) pre).
    { intros v Hv. destruct (IHr v Hv) as (pre & post & -> & Hin).
      exists pre, (post ++ [ev]). split; trivial.
      now rewrite <- app_assoc. }
    destruct ev; simpl.
    + (* Complete *)
      unfold oncomplete; simpl.
      destruct (actionCompleted w) eqn:Hc; simpl; split.
      * intros _. apply in_or_app. left. now apply IHa.
      * intros v Hv. simpl in Hv. destruct (returned w) eqn:Hr; simpl in Hv.
        -- injection Hv as <-. exists l, []. split; trivial. now apply IHa.
        -- apply Hkeep. exact Hv.
        -- discriminate.
      * intros Hc'. simpl in Hc'. congruence.
      * intros v Hv. apply Hkeep. simpl in Hv.
        destruct (returned w); simpl in Hv; congruence.
    + (* ActionFulfilled *)
      split.
      * intros _. apply in_or_app. right. now left.
      * exact Hkeep.
    + (* ActionRejected *)
      unfold on_rejected; simpl. destruct (finished w); simpl; split.
      * intros Hc. apply in_or_app. left. now apply IHa.
      * exact Hkeep.
      * intros Hc. apply in_or_app. left. now apply IHa.
      * intros v Hv. apply Hkeep. simpl in Hv.
        destruct (returned w); simpl in Hv; congruence.
    + (* Aborted *)
      split.
      * intros Hc. apply in_or_app. left. now apply IHa.
      * exact Hkeep.
Qed.

(** Handlers only ever add to the trace. *)
Lemma step_trace (w : world) (ev : event) :
  exists t, trace (step w ev) = trace w ++ t.
Proof.
  destruct ev; simpl.
  - unfold oncomplete. destruct (negb _); simpl; eexists; reflexivity.
  - exists []. now rewrite app_nil_r.
  - unfold on_rejected. simpl. destruct (finished w); simpl;
      rewrite <- app_assoc; eexists; reflexivity.
  - exists []. now rewrite app_nil_r.
Qed.

Lemma steps_trace (l : list event) (w : world) :
  exists t, trace (fold_left step l w) = trace w ++ t.
Proof.
  revert w. induction l as [|ev l IH]; intros w; simpl.
  - exists []. now rewrite app_nil_r.
  - destruct (IH (step w ev)) as [t Ht].
    destruct (step_trace w ev) as [t' Ht'].
    exists (t' ++ t). now rewrite Ht, Ht', app_assoc.
Qed.

(** While the action is still pending the wrapper has not resolved
    anything and [actionCompleted] is still false. *)
Lemma run_action_pending (l : list event) :
  forallb (fun ev => negb (action_settles ev)) l = true ->
  actionCompleted (run l) = false
  /\ (returned (run l) = Pending \/ returned (run l) = Rejected mismatch).
Proof.
  induction l as [|ev l IH] using rev_ind; intros Hl.
  - split; [reflexivity | now left].
  - rewrite forallb_app in Hl. apply andb_true_iff in Hl as [Hl Hev].
    destruct (IH Hl) as [Hc Hr]. rewrite run_snoc.
    destruct ev; simpl in Hev; try discriminate; simpl.
    + unfold oncomplete; simpl. rewrite Hc; simpl. split; trivial.
      right. destruct Hr as [-> | ->]; reflexivity.
    + now split.
Qed.

(** C6.  [Database.transaction] resolves only with a value the action's
    promise was fulfilled with before the host reported completion; and if
    the host reports completion while the action has not settled yet, the
    returned promise ends rejected with the error "Transaction completed
    before action function completed", whatever happens afterwards. *)
Theorem transaction_completion_mismatch (events : list event) :
  (forall v,
      returned (run events) = Resolved v ->
      exists pre post,
        events = pre ++ Complete :: post /\ In (ActionFulfilled v) pre)
  /\ (forall pre post,
        events = pre ++ Complete :: post ->
        forallb (fun ev => negb (action_settles ev)) pre = true ->
        returned (run events) = Rejected mismatch).
Proof.
  split.
  - apply (run_consistent events).
  - intros pre post -> Hpre.
    destruct (run_action_pending pre Hpre) as [Hc Hr].
    change (pre ++ Complete :: post) with (pre ++ [Complete] ++ post).
    rewrite app_assoc, run_app, run_snoc.
    assert (Hnow : returned (step (run pre) Complete) = Rejected mismatch).
    { simpl. unfold oncomplete; simpl. rewrite Hc; simpl.
      destruct Hr as [-> | ->]; reflexivity. }
    rewrite steps_settled; rewrite Hnow; congruence.
Qed.

(** The host completes first: the wrapper rejects.  The action returns 7
    and the host completes afterwards: 7 was returned before completion. *)
Lemma transaction_completion_mismatch_witness :
  returned (run [Complete; ActionFulfilled (VNum 7)]) = Rejected mismatch
  /\ exists pre post,
       [ActionFulfilled (VNum 7); Complete] = pre ++ Complete :: post
       /\ In (ActionFulfilled (VNum 7)) pre.
Proof.
  split.
  - apply (proj2 (transaction_completion_mismatch
                    [Complete; ActionFulfilled (VNum 7)])
             [] [ActionFulfilled (VNum 7)]);
      reflexivity.
  - apply (proj1 (transaction_completion_mismatch
                    [ActionFulfilled (VNum 7); Complete]) (VNum 7)).
    reflexivity.
Defined.



(** If the transaction has been aborted already (say the action called
    [abort()] on its handle before failing), the wrapper's own [abort()]
    throws and the returned promise is never settled. *)
Lemma abort_after_abort_hangs (e : jserror) :
  returned (run [Aborted; ActionRejected e]) = Pending
  /\ trace (run [Aborted; ActionRejected e])
     = [CallAbort; Uncaught InvalidStateError].
Proof. split; reflexivity. Qed.

End TransactionFacts.

(* ================================================================== *)
(** ** Properties of [DatabaseDef.open] *)
(* ================================================================== *)

Module OpenFacts.

Import DbDeclarations.

Lemma open_steps_settled (def : DatabaseDef) (l : list open_event)
    (w : open_world) :
  opened w <> Pending -> opened (fold_left (open_step def) l w) = opened w.
Proof.
  revert w. induction l as [|ev l IH]; intros w Hs; simpl; trivial.
  assert (Hstep : opened (open_step def w ev) = opened w).
  { destruct ev; simpl; trivial; destruct (opened w); simpl; congruence. }
  rewrite IH; rewrite Hstep; trivial.
Qed.

Lemma open_unsettled (def : DatabaseDef) (l : list open_event) :
  forallb (fun ev => negb (open_settles ev)) l = true ->
  opened (open def l) = Pending
  \/ opened (open def l) = Rejected (UpgradeAttemptBlockedError "up").
Proof.
  unfold open.
  induction l as [|ev l IH] using rev_ind; intros Hl.
  - now left.
  - rewrite forallb_app in Hl. apply andb_true_iff in Hl as [Hl Hev].
    rewrite fold_left_app. simpl.
    destruct ev; simpl in Hev; try discriminate; simpl.
    + now apply IH.
    + right. destruct (IH Hl) as [-> | ->]; reflexivity.
Qed.

(** C8.  When the host fires [blocked] on the open request before the
    request has succeeded or failed, the promise returned by [open()]
    ends rejected with an [UpgradeAttemptBlockedError], whatever the
    request does afterwards. *)
Theorem open_blocked_rejects (def : DatabaseDef)
    (before after : list open_event) :
  forallb (fun ev => negb (open_settles ev)) before = true ->
  opened (open def (before ++ Blocked :: after))
  = Rejected (UpgradeAttemptBlockedError "up").
Proof.
  intros Hb. unfold open. rewrite fold_left_app. simpl.
  rewrite open_steps_settled.
  - simpl. destruct (open_unsettled def before Hb) as [H | H];
      unfold open in H; rewrite H; reflexivity.
  - simpl. destruct (open_unsettled def before Hb) as [H | H];
      unfold open in H; rewrite H; simpl; discriminate.
Qed.

(** Another tab holds version 1 open; the upgrade to version 2 is blocked
    and only goes through later. *)
Lemma open_blocked_rejects_witness :
  opened (open {| name := "todo-tasks-db"; version := 2 |}
            ([] ++ Blocked :: [UpgradeNeeded 1 (Some 2); Success]))
  = Rejected (UpgradeAttemptBlockedError "up").
Proof.
  apply (open_blocked_rejects {| name := "todo-tasks-db"; version := 2 |}
           [] [UpgradeNeeded 1 (Some 2); Success]).
  reflexivity.
Defined.

End OpenFacts.

(* ================================================================== *)
(** ** Properties of the store and index handles *)
(* ================================================================== *)

Module DbActionsFacts.

Import DbActions.

(** [ObjectStore.getAllPrimaryKeys] resolves with the primary keys of
    the matching records, in order. *)
Lemma store_getAllPrimaryKeys_keys (this : ObjectStore.t)
    (query : option key_query) (count : option N) :
  count_in_range count = true ->
  ObjectStore.getAllPrimaryKeys this query count
  = inr (Resolved (take_count count
                     (map r_primaryKey
                        (matching (ObjectStore.objectStore this) query)))).
Proof.
  intros Hc. unfold ObjectStore.getAllPrimaryKeys, Host.getAllKeys.
  now rewrite Hc.
Qed.

(** A count that is no [unsigned long] makes both methods throw before
    any request is made. *)
Lemma getAllPrimaryKeys_count_out_of_range (store : ObjectStore.t)
    (idx : Index.t) (query : option key_query) (count : option N) :
  count_in_range count = false ->
  ObjectStore.getAllPrimaryKeys store query count = inl TypeError
  /\ Index.getAllPrimaryKeys idx query count = inl TypeError.
Proof.
  intros Hc.
  unfold ObjectStore.getAllPrimaryKeys, Index.getAllPrimaryKeys,
    Host.getAllKeys, Host.getAll.
  now rewrite Hc.
Qed.

(** [Index.getAllPrimaryKeys] is [Index.getAll] under another name. *)
Lemma index_getAllPrimaryKeys_is_getAll (this : Index.t)
    (query : option key_query) (count : option N) :
  Index.getAllPrimaryKeys this query count = Index.getAll this query count.
Proof. reflexivity. Qed.

(** C5 at a concrete index.  On the [name] index of two tasks,
    [Index.getAllPrimaryKeys()] resolves with the stored task objects,
    not with their primary keys 2 and 1; [ObjectStore.getAllPrimaryKeys()]
    on the same store resolves with the primary keys. *)
Theorem index_getAllPrimaryKeys_returns_values :
  Index.getAllPrimaryKeys (index_on todo_tasks "name") None None
  = inr (Resolved [VObj [("id", VNum 2); ("name", VStr "bread")];
                   VObj [("id", VNum 1); ("name", VStr "water")]])
  /\ Index.getAllPrimaryKeys (index_on todo_tasks "name") None None
     <> inr (Resolved [VNum 2; VNum 1])
  /\ ObjectStore.getAllPrimaryKeys todo_tasks None None
     = inr (Resolved [VNum 1; VNum 2]).
Proof.
  split; [vm_compute; reflexivity | split].
  - vm_compute. discriminate.
  - vm_compute. reflexivity.
Qed.

End DbActionsFacts.

(* ================================================================== *)
(** ** Properties of the cursor iteration engine *)
(* ================================================================== *)

Module CursorFacts.

Import Cursor.

(** *** The event loop *)

Lemma event_loop_idle (fuel : nat) (action : IDBCursor -> M settle)
    (options : option CursorIterationOption) (w : world) :
  rq w = Idle -> event_loop fuel action options w = w.
Proof. intros H. destruct fuel; simpl; trivial. now rewrite H. Qed.

Lemma event_loop_add (n m : nat) (action : IDBCursor -> M settle)
    (options : option CursorIterationOption) (w : world) :
  event_loop (n + m) action options w
  = event_loop m action options (event_loop n action options w).
Proof.
  revert w. induction n as [|n IH]; intros w; simpl; trivial.
  destruct (rq w) eqn:Hrq.
  - now rewrite event_loop_idle.
  - apply IH.
Qed.

(** Once the request has nothing queued the run is over: more turns of
    the loop change nothing. *)
Lemma event_loop_finished (n k : nat) (action : IDBCursor -> M settle)
    (options : option CursorIterationOption) (w : world) :
  rq (event_loop n action options w) = Idle ->
  event_loop (n + k) action options w = event_loop n action options w.
Proof. intros H. rewrite event_loop_add. now apply event_loop_idle. Qed.

Lemma iterateKeys_finished (n k : nat) (p : source)
    (action : CursorValue1 -> settle)
    (options : option CursorIterationOption) :
  quiescent (iterateKeys p n action options) = true ->
  iterateKeys p (n + k) action options = iterateKeys p n action options.
Proof.
  unfold iterateKeys. destruct (iterateCursor _ _) as [e | w0]; simpl.
  - reflexivity.
  - intros Hq. rewrite event_loop_finished; trivial.
    now destruct (rq _).
Qed.

(** *** Handlers only ever add to the trace *)

Lemma grows_ret {A} (a : A) : grows (ret a).
Proof. intros w. exists []. simpl. now rewrite app_nil_r. Qed.

Lemma grows_throw {A} (e : exn) : grows (@throw A e).
Proof. intros w. exists []. simpl. now rewrite app_nil_r. Qed.

Lemma grows_gets {A} (f : world -> A) : grows (gets f).
Proof. intros w. exists []. simpl. now rewrite app_nil_r. Qed.

Lemma grows_bind {A B} (m : M A) (k : A -> M B) :
  grows m -> (forall a, grows (k a)) -> grows (bind m k).
Proof.
  intros Hm Hk w. unfold bind. destruct (Hm w) as [t Ht].
  destruct (m w) as [[a | e] w']; simpl in *.
  - destruct (Hk a w') as [t' Ht']. exists (t ++ t').
    now rewrite Ht', Ht, app_assoc.
  - now exists t.
Qed.

Lemma grows_modify (f : world -> world) :
  (forall w, exists t, trace (f w) = trace w ++ t) -> grows (modify f).
Proof. intros H w. apply H. Qed.

Lemma grows_record (o : obs) : grows (modify (record_obs o)).
Proof. apply grows_modify. intros w. now exists [o]. Qed.

Lemma grows_silent (f : world -> world) :
  (forall w, trace (f w) = trace w) -> grows (modify f).
Proof.
  intros H. apply grows_modify. intros w. exists [].
  now rewrite H, app_nil_r.
Qed.

Lemma grows_resolve : grows resolve.
Proof. apply grows_modify. intros w. now exists [ResolveCalled]. Qed.

Lemma grows_reject (e : jserror) : grows (reject e).
Proof. apply grows_modify. intros w. now exists [RejectCalled e]. Qed.

Lemma grows_move (h : host_call) (c : IDBCursor) (target : nat + exn) :
  grows (move h c target).
Proof.
  unfold move. apply grows_bind; [apply grows_record | intros _].
  apply grows_bind; [apply grows_gets | intros [|ev]].
  - destruct target; [now apply grows_silent | apply grows_throw].
  - apply grows_throw.
Qed.

Lemma grows_keys_action (action : CursorValue1 -> settle) (c : IDBCursor) :
  grows (keys_action action c).
Proof.
  unfold keys_action. apply grows_bind; [apply grows_record | intros _].
  apply grows_ret.
Qed.

Lemma grows_values_action (action : CursorValue2 -> settle) (c : IDBCursor) :
  grows (values_action action c).
Proof.
  unfold values_action. apply grows_bind; [apply grows_record | intros _].
  apply grows_ret.
Qed.

Lemma grows_action_then (c : IDBCursor) (done : jsval) :
  grows (action_then c done).
Proof.
  unfold action_then. destruct (truthy done);
    [apply grows_resolve | apply grows_move].
Qed.

Lemma grows_onsuccess (action : IDBCursor -> M settle)
    (options : option CursorIterationOption) (result : option IDBCursor) :
  (forall c, grows (action c)) -> grows (onsuccess action options result).
Proof.
  intros Ha. unfold onsuccess. destruct result as [cursor|].
  - apply grows_bind; [apply grows_gets | intros [|]].
    + apply grows_bind.
      * destruct (truthy _); apply grows_move.
      * intros _. apply grows_bind; [now apply grows_silent | intros _].
        apply grows_ret.
    + apply grows_bind; [apply grows_gets | intros [|]].
      * apply grows_bind.
        -- destruct (get_offset options); [apply grows_move | apply grows_throw].
        -- intros _. apply grows_bind; [now apply grows_silent | intros _].
           apply grows_ret.
      * apply grows_bind; [now apply grows_silent | intros _].
        apply grows_bind; [apply Ha | intros p].
        apply grows_bind; [apply grows_gets | intros count].
        apply grows_bind; [| intros _; apply grows_ret].
        destruct (_ && _); [apply grows_resolve | apply grows_ret].
  - apply grows_bind; [apply grows_resolve | intros _; apply grows_ret].
Qed.

Lemma close_grows {A} (m : M A) (w : world) :
  grows m -> exists t, trace (close (m w)) = trace w ++ t.
Proof.
  intros Hm. destruct (Hm w) as [t Ht].
  destruct (m w) as [[a | e] w']; simpl in *.
  - now exists t.
  - exists (t ++ [Uncaught e]). now rewrite Ht, app_assoc.
Qed.

Lemma dispatch_grows (action : IDBCursor -> M settle)
    (options : option CursorIterationOption) (w : world) :
  (forall c, grows (action c)) ->
  exists t, trace (dispatch action options w) = trace w ++ t.
Proof.
  intros Ha. unfold dispatch. destruct (rq w) as [|[result | error]].
  - exists []. now rewrite app_nil_r.
  - destruct (grows_onsuccess action options result Ha (set_rq Idle w))
      as [t Ht].
    destruct (onsuccess _ _ _ _) as [[[[c [done | e]]|] | e] w'];
      simpl in Ht.
    + destruct (close_grows (action_then c done) w' (grows_action_then c done))
        as [t' Ht'].
      exists (t ++ t'). now rewrite Ht', Ht, app_assoc.
    + exists (t ++ [UnhandledRejection e]). simpl.
      now rewrite Ht, app_assoc.
    + now exists t.
    + exists (t ++ [Uncaught e]). simpl. now rewrite Ht, app_assoc.
  - apply (close_grows (onerror error) (set_rq Idle w)).
    apply grows_reject.
Qed.

Lemma event_loop_grows (fuel : nat) (action : IDBCursor -> M settle)
    (options : option CursorIterationOption) (w : world) :
  (forall c, grows (action c)) ->
  exists t, trace (event_loop fuel action options w) = trace w ++ t.
Proof.
  intros Ha. revert w. induction fuel as [|fuel IH]; intros w; simpl.
  - exists []. now rewrite app_nil_r.
  - destruct (rq w).
    + exists []. now rewrite app_nil_r.
    + destruct (dispatch_grows action options w Ha) as [t Ht].
      destruct (IH (dispatch action options w)) as [t' Ht'].
      exists (t ++ t'). now rewrite Ht', Ht, app_assoc.
Qed.

(** *** Pre-flight validation *)

(** On integers the two checks reject exactly the negative values: zero
    is falsy, so the comparison with 1 is never reached for it. *)
Lemma preflight_passes (options : option CursorIterationOption) :
  preflight options = None
  <-> (forall n, get_offset options = Some n -> 0 <= n)
      /\ (forall n, get_limit options = Some n -> 0 <= n).
Proof.
  unfold preflight.
  destruct (get_offset options) as [o|], (get_limit options) as [l|];
    simpl;
    repeat match goal with
      | |- context [Z.eqb ?a ?b] => destruct (Z.eqb_spec a b)
      | |- context [Z.ltb ?a ?b] => destruct (Z.ltb_spec a b)
      end; simpl;
    (split;
     [ intros Hp; try discriminate Hp; split; intros k Hn;
       try discriminate Hn; injection Hn as <-; lia
     | intros [Ho Hl]; try specialize (Ho _ eq_refl);
       try specialize (Hl _ eq_refl); try reflexivity; lia ]).
Qed.

(** A value below zero is refused before the cursor is opened. *)
Lemma negative_offset_throws (p : source) (fuel : nat)
    (action : CursorValue1 -> settle) (options : option CursorIterationOption)
    (n : Z) :
  get_offset options = Some n -> n < 0 ->
  iterateKeys p fuel action options
  = inl (Error "offset must be greater than 0").
Proof.
  intros Ho Hn. unfold iterateKeys, iterateCursor, preflight.
  rewrite Ho. simpl.
  destruct (Z.eqb_spec n 0); [lia|]. destruct (Z.ltb_spec n 1); [|lia].
  reflexivity.
Qed.

(** C4 at the inputs [{offset: 0}] and [{limit: 0}].  Neither
    [iterateKeys] nor [iterateValues] throws: the promise is created and
    the cursor is opened, as if the option had been left out. *)
Theorem zero_offset_and_limit_are_accepted :
  (exists w, iterateKeys five_keys 0 keep_going (Some (with_offset 0)) = inr w
             /\ trace w = [Call (OpenKeyCursor None None)]
             /\ offsetNotApplied w = false)
  /\ (exists w, iterateKeys five_keys 0 keep_going (Some (with_limit 0)) = inr w
                /\ trace w = [Call (OpenKeyCursor None None)])
  /\ (exists w, iterateValues five_keys 0 (fun _ => Fulfils VUndefined)
                  (Some (with_offset 0)) = inr w
                /\ trace w = [Call (OpenCursor None None)])
  /\ (exists w, iterateValues five_keys 0 (fun _ => Fulfils VUndefined)
                  (Some (with_limit 0)) = inr w
                /\ trace w = [Call (OpenCursor None None)])
  /\ (forall fuel,
        iterateKeys five_keys (6 + fuel) keep_going (Some (with_offset 0))
        = iterateKeys five_keys (6 + fuel) keep_going None)
  /\ (forall fuel,
        iterateKeys five_keys (6 + fuel) keep_going (Some (with_limit 0))
        = iterateKeys five_keys (6 + fuel) keep_going None).
Proof.
  split; [| split; [| split; [| split; [| split]]]].
  - eexists. split; [vm_compute; reflexivity | split; reflexivity].
  - eexists. split; [vm_compute; reflexivity | reflexivity].
  - eexists. split; [vm_compute; reflexivity | reflexivity].
  - eexists. split; [vm_compute; reflexivity | reflexivity].
  - intros fuel.
    rewrite !iterateKeys_finished by (vm_compute; reflexivity).
    vm_compute; reflexivity.
  - intros fuel.
    rewrite !iterateKeys_finished by (vm_compute; reflexivity).
    vm_compute; reflexivity.
Qed.

(** *** The user callback's return value *)

(** Whatever the user callback returns, the promise of the wrapper that
    [iterateKeys] hands to the engine is fulfilled with [undefined]. *)
Lemma keys_action_drops_result (action : CursorValue1 -> settle)
    (c : IDBCursor) (w : world) :
  match fst (keys_action action c w) with
  | Ok (Fulfils done) => done = VUndefined
  | Ok (Rejects _) => True
  | Throws _ => False
  end.
Proof. unfold keys_action. simpl. now destruct (action _). Qed.

Lemma values_action_drops_result (action : CursorValue2 -> settle)
    (c : IDBCursor) (w : world) :
  match fst (values_action action c w) with
  | Ok (Fulfils done) => done = VUndefined
  | Ok (Rejects _) => True
  | Throws _ => False
  end.
Proof. unfold values_action. simpl. now destruct (action _). Qed.

(** The engine sees the user callback only through the wrapper, so two
    callbacks that differ only in the values they return drive the same
    run. *)
Lemma event_loop_ext (fuel : nat) (action action' : IDBCursor -> M settle)
    (options : option CursorIterationOption) (w : world) :
  (forall c w, action c w = action' c w) ->
  event_loop fuel action options w = event_loop fuel action' options w.
Proof.
  intros Ha. revert w. induction fuel as [|fuel IH]; intros w; simpl; trivial.
  destruct (rq w) as [|ev] eqn:Hq; trivial.
  assert (Hd : dispatch action options w = dispatch action' options w).
  { unfold dispatch. rewrite Hq. destruct ev as [[c|] | e]; trivial.
    unfold onsuccess, bind, gets, modify. simpl.
    destruct (fromIndexNotApplied _); trivial.
    destruct (offsetNotApplied _); trivial.
    now rewrite Ha. }
  rewrite Hd. apply IH.
Qed.

Lemma iterateKeys_ignores_return_value (p : source) (fuel : nat)
    (action action' : CursorValue1 -> settle)
    (options : option CursorIterationOption) :
  (forall v, match action v, action' v with
             | Fulfils _, Fulfils _ => True
             | Rejects e, Rejects e' => e = e'
             | _, _ => False
             end) ->
  iterateKeys p fuel action options = iterateKeys p fuel action' options.
Proof.
  intros Hsame. unfold iterateKeys.
  destruct (iterateCursor _ _) as [e | w0]; trivial.
  f_equal. apply event_loop_ext. intros c w. unfold keys_action, bind. simpl.
  specialize (Hsame {| key := Host.key c; primaryKey := Host.primaryKey c |}).
  destruct (action _), (action' _); try contradiction; congruence.
Qed.

(** *** Runs over the keys 1 to 5 *)

(** C1 at the store with keys 1 to 5 and a callback that returns [true]
    at key 3.  The run goes on after key 3: it issues [cursor.continue()],
    delivers keys 4 and 5, and resolves only when the cursor is
    exhausted. *)
Theorem break_at_3_is_ignored (fuel : nat) :
  exists w,
    iterateKeys five_keys (6 + fuel) stop_at_3 None = inr w
    /\ returned w = Resolved tt
    /\ delivered (trace w) = [VNum 1; VNum 2; VNum 3; VNum 4; VNum 5]
    /\ after_delivery (VNum 3) (trace w)
       = [Call (Continue VUndefined);
          DeliverKeys {| key := VNum 4; primaryKey := VNum 4 |};
          Call (Continue VUndefined);
          DeliverKeys {| key := VNum 5; primaryKey := VNum 5 |};
          Call (Continue VUndefined);
          ResolveCalled].
Proof.
  rewrite iterateKeys_finished by (vm_compute; reflexivity).
  eexists. split; [vm_compute; reflexivity |].
  split; [reflexivity |]. split; vm_compute; reflexivity.
Qed.

(** C2 at the store with keys 1 to 5 and [{limit: 2}].  The promise
    resolves after the second delivery, but the run goes on: after that
    [resolve()] it issues [cursor.continue()] four more times and hands
    keys 3, 4 and 5 to the callback as well. *)
Theorem limit_2_does_not_stop (fuel : nat) :
  exists w,
    iterateKeys five_keys (6 + fuel) keep_going (Some (with_limit 2)) = inr w
    /\ returned w = Resolved tt
    /\ delivered (trace w) = [VNum 1; VNum 2; VNum 3; VNum 4; VNum 5]
    /\ delivered (after_resolve (trace w)) = [VNum 3; VNum 4; VNum 5]
    /\ filter is_move (after_resolve (trace w))
       = [Call (Continue VUndefined); Call (Continue VUndefined);
          Call (Continue VUndefined); Call (Continue VUndefined)].
Proof.
  rewrite iterateKeys_finished by (vm_compute; reflexivity).
  eexists. split; [vm_compute; reflexivity |].
  split; [reflexivity |].
  split; [vm_compute; reflexivity |].
  split; vm_compute; reflexivity.
Qed.

(** C3, as the claim puts it, fails: with [{offset: 2}] over the keys 1
    to 5 no run, however long, has key 3 as its first delivery. *)
Lemma offset_2_first_delivery_counterexample :
  ~ exists fuel w,
      iterateKeys five_keys fuel keep_going (Some (with_offset 2)) = inr w
      /\ hd_error (delivered (trace w)) = Some (VNum 3).
Proof.
  intros (fuel & w & Hrun & Hfirst).
  do 6 (destruct fuel as [|fuel];
        [vm_compute in Hrun; injection Hrun as <-;
         vm_compute in Hfirst; discriminate |]).
  change (S (S (S (S (S (S fuel)))))) with (6 + fuel)%nat in Hrun.
  rewrite iterateKeys_finished in Hrun by (vm_compute; reflexivity).
  vm_compute in Hrun. injection Hrun as <-.
  vm_compute in Hfirst. discriminate.
Qed.

(** C3, amended.  With [{offset: 2}] over the keys 1 to 5 the first
    cursor-ready event is answered with [cursor.advance(1)] and no
    delivery, and the position reached, key 2, is the first one handed to
    the callback; keys 3, 4 and 5 follow. *)
Theorem offset_2_first_delivers_2 (fuel : nat) :
  exists w,
    iterateKeys five_keys (6 + fuel) keep_going (Some (with_offset 2)) = inr w
    /\ returned w = Resolved tt
    /\ firstn 3 (trace w)
       = [Call (OpenKeyCursor None None); Call (Advance 1);
          DeliverKeys {| key := VNum 2; primaryKey := VNum 2 |}]
    /\ delivered (trace w) = [VNum 2; VNum 3; VNum 4; VNum 5].
Proof.
  rewrite iterateKeys_finished by (vm_compute; reflexivity).
  eexists. split; [vm_compute; reflexivity |].
  split; [reflexivity |]. split; vm_compute; reflexivity.
Qed.

(** *** The first cursor-ready event *)

Lemma open_cursor_first (p : source) (q : option key_query)
    (d : option IDBCursorDirection) (c : IDBCursor) :
  open_cursor p q d = Some c -> c_pos c = 0%nat.
Proof.
  unfold open_cursor, cursor_at. simpl.
  destruct (_ <? _)%nat; [intros [= <-]; reflexivity | discriminate].
Qed.

(** With [offset: 1] and no seek pending, the first turn of the loop
    calls [cursor.advance(0)]; the host throws, nothing is delivered and
    nothing is queued any more. *)
Lemma offset_1_first_turn (requester : host_call * option IDBCursor)
    (action : IDBCursor -> M settle)
    (options : option CursorIterationOption) (c : IDBCursor) (fuel : nat) :
  get_offset options = Some 1 ->
  truthy (get_from_key options) = false ->
  (forall n, get_limit options = Some n -> 0 <= n) ->
  snd requester = Some c ->
  exists w0 w,
    iterateCursor requester options = inr w0
    /\ event_loop (S fuel) action options w0 = w
    /\ trace w = [Call (fst requester); Call (Advance 0); Uncaught TypeError]
    /\ returned w = Pending
    /\ rq w = Idle.
Proof.
  intros Ho Hf Hl Hc.
  assert (Hp : preflight options = None).
  { apply preflight_passes. split; trivial.
    intros n. rewrite Ho. intros [= <-]. lia. }
  unfold iterateCursor. rewrite Hp, Ho, Hf, Hc.
  eexists. eexists. split; [reflexivity |].
  split; [reflexivity |].
  simpl event_loop. unfold dispatch. simpl.
  unfold onsuccess, bind, gets. simpl. rewrite Ho. simpl.
  rewrite event_loop_idle by reflexivity.
  repeat split.
Qed.

(** C9, as the claim puts it, fails: not every run with [offset: 1] over
    a non-empty result set issues [cursor.advance(0)].  With
    [{from: {key: 9}, offset: 1}] over the keys 1 to 5 the first event is
    spent on the seek, the seek runs past the last key, and the run
    resolves: no [advance(0)] is ever called, however long the run.  And
    with [{limit: -1, offset: 1}] the pre-flight validation does not
    pass: the run throws before a cursor is opened. *)
Lemma offset_1_with_seek_counterexample :
  (~ exists fuel w,
       iterateKeys five_keys fuel keep_going
         (Some (CursorRuns.with_from_and_offset (VNum 9) 1)) = inr w
       /\ In (Call (Advance 0)) (trace w))
  /\ (exists w,
       iterateKeys five_keys 2 keep_going
         (Some (CursorRuns.with_from_and_offset (VNum 9) 1)) = inr w
       /\ trace w = [Call (OpenKeyCursor None None); Call (Continue (VNum 9));
                     ResolveCalled]
       /\ returned w = Resolved tt
       /\ rq w = Idle)
  /\ iterateKeys five_keys 2 keep_going
       (Some {| from := None; limit := Some (-1); offset := Some 1;
                query := None; direction := None |})
     = inl (Error "limit must be greater than 0").
Proof.
  split; [| split; [| vm_compute; reflexivity]].
  - intros (fuel & w & Hrun & Hin).
    do 2 (destruct fuel as [|fuel];
          [vm_compute in Hrun; injection Hrun as <-; simpl in Hin;
           repeat (destruct Hin as [Hin | Hin]; [discriminate |]);
           contradiction |]).
    change (S (S fuel)) with (2 + fuel)%nat in Hrun.
    rewrite iterateKeys_finished in Hrun by (vm_compute; reflexivity).
    vm_compute in Hrun. injection Hrun as <-. simpl in Hin.
    repeat (destruct Hin as [Hin | Hin]; [discriminate |]).
    contradiction.
  - eexists. split; [vm_compute; reflexivity |].
    split; [reflexivity |]. split; reflexivity.
Qed.

(** C9, amended.  With [offset: 1] over a non-empty result set, no seek
    pending ([from.key] absent or falsy) and a limit that passes its own
    check (absent or not negative), the pre-flight checks pass; on the
    first cursor-ready event the engine calls [cursor.advance(1 - 1)],
    which the host refuses with a [TypeError]; the exception escapes the
    success handler, which is not the error branch: [reject] is never
    called, no position is ever delivered, and the run's promise stays
    pending for good, neither resolved nor rejected.  This holds for
    [iterateKeys] and for [iterateValues]. *)
Theorem offset_1_advances_by_zero (p : source)
    (options : option CursorIterationOption) (c : IDBCursor) (fuel : nat)
    (keyAction : CursorValue1 -> settle)
    (valueAction : CursorValue2 -> settle) :
  get_offset options = Some 1 ->
  truthy (get_from_key options) = false ->
  (forall n, get_limit options = Some n -> 0 <= n) ->
  open_cursor p (get_query options) (get_direction options) = Some c ->
  preflight options = None
  /\ host_accepts c (Advance (1 - 1)) = false
  /\ (exists w,
        iterateKeys p (S fuel) keyAction options = inr w
        /\ trace w = [Call (OpenKeyCursor (get_query options)
                              (get_direction options));
                      Call (Advance 0); Uncaught TypeError]
        /\ delivered (trace w) = []
        /\ returned w = Pending
        /\ rq w = Idle)
  /\ (exists w,
        iterateValues p (S fuel) valueAction options = inr w
        /\ trace w = [Call (OpenCursor (get_query options)
                              (get_direction options));
                      Call (Advance 0); Uncaught TypeError]
        /\ delivered (trace w) = []
        /\ returned w = Pending
        /\ rq w = Idle).
Proof.
  intros Ho Hf Hl Hc. split; [| split; [reflexivity | split]].
  - apply preflight_passes. split; trivial.
    intros n. rewrite Ho. intros [= <-]. lia.
  - destruct (offset_1_first_turn
                (OpenKeyCursor (get_query options) (get_direction options),
                 open_cursor p (get_query options) (get_direction options))
                (keys_action keyAction) options c fuel Ho Hf Hl Hc)
      as (w0 & w & H0 & Hw & Ht & Hr & Hq).
    exists w. unfold iterateKeys. rewrite H0, Hw.
    repeat split; trivial. now rewrite Ht.
  - destruct (offset_1_first_turn
                (OpenCursor (get_query options) (get_direction options),
                 open_cursor p (get_query options) (get_direction options))
                (values_action valueAction) options c fuel Ho Hf Hl Hc)
      as (w0 & w & H0 & Hw & Ht & Hr & Hq).
    exists w. unfold iterateValues. rewrite H0, Hw.
    repeat split; trivial. now rewrite Ht.
Qed.

(** [{offset: 1}] over the keys 1 to 5. *)
Lemma offset_1_advances_by_zero_witness :
  exists w,
    iterateKeys five_keys 1 keep_going (Some (with_offset 1)) = inr w
    /\ trace w = [Call (OpenKeyCursor None None); Call (Advance 0);
                  Uncaught TypeError]
    /\ delivered (trace w) = []
    /\ returned w = Pending
    /\ rq w = Idle.
Proof.
  refine (proj1 (proj2 (proj2
    (offset_1_advances_by_zero five_keys (Some (with_offset 1))
       {| c_is_index := false; c_direction := next;
          c_records := src_records five_keys; c_pos := 0 |}
       0 keep_going (fun _ => Fulfils VUndefined) _ _ _ _)))).
  - reflexivity.
  - reflexivity.
  - simpl. discriminate.
  - reflexivity.
Defined.

Lemma first_turn (requester : host_call * option IDBCursor)
    (action : IDBCursor -> M settle)
    (options : option CursorIterationOption) (fuel : nat) (w0 : world)
    (prefix : list obs) :
  (forall c, grows (action c)) ->
  rq w0 <> Idle ->
  (exists t, trace (dispatch action options w0) = prefix ++ t) ->
  exists rest,
    trace (event_loop (S fuel) action options w0) = prefix ++ rest.
Proof.
  intros Ha Hq [t Ht]. simpl. destruct (rq w0); [congruence |].
  destruct (event_loop_grows fuel action options
              (dispatch action options w0) Ha) as [t' Ht'].
  exists (t ++ t'). now rewrite Ht', Ht, app_assoc.
Qed.

(** With a seek pending, the first handler run issues exactly one seek:
    the primary-key-aware one if [from.primaryKey] is truthy, the
    key-only one otherwise. *)
Lemma seek_first_turn (requester : host_call * option IDBCursor)
    (action : IDBCursor -> M settle)
    (options : option CursorIterationOption) (c : IDBCursor) (w0 : world) :
  iterateCursor requester options = inr w0 ->
  snd requester = Some c ->
  truthy (get_from_key options) = true ->
  exists t,
    trace (dispatch action options w0)
    = [Call (fst requester);
       Call (if truthy (get_from_primaryKey options)
             then ContinuePrimaryKey (get_from_key options)
                    (get_from_primaryKey options)
             else Continue (get_from_key options))] ++ t.
Proof.
  unfold iterateCursor. destruct (preflight options); [discriminate |].
  intros [= <-] Hc Hk. rewrite Hc, Hk.
  unfold dispatch. simpl. unfold onsuccess, bind, gets. simpl.
  destruct (truthy (get_from_primaryKey options)).
  - unfold cursor_continuePrimaryKey, move, bind, gets, modify, throw. simpl.
    destruct (continuePrimaryKey_target _ _ _); simpl; eexists; reflexivity.
  - unfold cursor_continue, move, bind, gets, modify, throw. simpl.
    destruct (continue_target _ _); simpl; eexists; reflexivity.
Qed.

(** With neither a seek nor an offset pending, the first handler run
    hands the cursor's first position to the action. *)
Lemma deliver_first_turn (requester : host_call * option IDBCursor)
    (action : IDBCursor -> M settle)
    (options : option CursorIterationOption) (c : IDBCursor) (w0 : world)
    (o : obs) :
  iterateCursor requester options = inr w0 ->
  snd requester = Some c ->
  truthy (get_from_key options) = false ->
  truthy (of_num (get_offset options)) = false ->
  (forall w, exists r, action c w = (Ok r, record_obs o w)) ->
  exists t,
    trace (dispatch action options w0) = [Call (fst requester); o] ++ t.
Proof.
  unfold iterateCursor. destruct (preflight options); [discriminate |].
  intros [= <-] Hc Hk Ho Ha. rewrite Hc, Hk, Ho.
  unfold dispatch. simpl. unfold onsuccess, bind, gets, modify. simpl.
  match goal with
  | |- context [action c ?w] => destruct (Ha w) as [r ->]
  end.
  simpl.
  destruct (_ && _); simpl; destruct r as [done | e]; simpl;
    try (eexists; reflexivity);
    (change [Call (fst requester); o] with ([Call (fst requester)] ++ [o]);
     match goal with
     | |- context [action_then c done ?w] =>
         destruct (close_grows (action_then c done) w
                     (grows_action_then c done)) as [t ->]
     end;
     simpl; eexists; rewrite <- ?app_assoc; simpl; reflexivity).
Qed.

(** *** No seek without a truthy [from.key] *)

Lemma ns_ret {A} (a : A) : CursorRuns.keeps_no_seek (ret a).
Proof. now intros w. Qed.

Lemma ns_throw {A} (e : exn) : CursorRuns.keeps_no_seek (@throw A e).
Proof. now intros w. Qed.

Lemma ns_gets {A} (f : world -> A) : CursorRuns.keeps_no_seek (gets f).
Proof. now intros w. Qed.

Lemma ns_bind {A B} (m : M A) (k : A -> M B) :
  CursorRuns.keeps_no_seek m -> (forall a, CursorRuns.keeps_no_seek (k a)) ->
  CursorRuns.keeps_no_seek (bind m k).
Proof.
  intros Hm Hk w Hw. unfold bind. specialize (Hm w Hw).
  destruct (m w) as [[a | e] w']; simpl in *; trivial.
  now apply Hk.
Qed.

Lemma ns_quiet (f : world -> world) :
  (forall w, fromIndexNotApplied (f w) = fromIndexNotApplied w
             /\ trace (f w) = trace w) ->
  CursorRuns.keeps_no_seek (modify f).
Proof.
  intros H w [Hf Ht]. destruct (H w) as [Hf' Ht'].
  split; simpl; congruence.
Qed.

Lemma ns_record_obs (o : obs) (w : world) :
  CursorRuns.is_seek o = false -> CursorRuns.no_seek w ->
  CursorRuns.no_seek (record_obs o w).
Proof.
  intros Ho [Hf Ht]. split; simpl; trivial.
  rewrite filter_app, Ht. simpl. now rewrite Ho.
Qed.

Lemma ns_record (o : obs) :
  CursorRuns.is_seek o = false ->
  CursorRuns.keeps_no_seek (modify (record_obs o)).
Proof. intros Ho w Hw. now apply ns_record_obs. Qed.

Lemma ns_resolve : CursorRuns.keeps_no_seek resolve.
Proof.
  intros w [Hf Ht]. split; simpl; trivial.
  rewrite filter_app, Ht. reflexivity.
Qed.

Lemma ns_reject (e : jserror) : CursorRuns.keeps_no_seek (reject e).
Proof.
  intros w [Hf Ht]. split; simpl; trivial.
  rewrite filter_app, Ht. reflexivity.
Qed.

Lemma ns_move (h : host_call) (c : IDBCursor) (target : nat + exn) :
  CursorRuns.is_seek (Call h) = false ->
  CursorRuns.keeps_no_seek (move h c target).
Proof.
  intros Hh. unfold move. apply ns_bind; [now apply ns_record | intros _].
  apply ns_bind; [apply ns_gets | intros [|ev]].
  - destruct target; [now apply ns_quiet | apply ns_throw].
  - apply ns_throw.
Qed.

Lemma ns_keys_action (action : CursorValue1 -> settle) (c : IDBCursor) :
  CursorRuns.keeps_no_seek (keys_action action c).
Proof.
  unfold keys_action. apply ns_bind; [now apply ns_record | intros _].
  apply ns_ret.
Qed.

Lemma ns_values_action (action : CursorValue2 -> settle) (c : IDBCursor) :
  CursorRuns.keeps_no_seek (values_action action c).
Proof.
  unfold values_action. apply ns_bind; [now apply ns_record | intros _].
  apply ns_ret.
Qed.

Lemma ns_action_then (c : IDBCursor) (done : jsval) :
  CursorRuns.keeps_no_seek (action_then c done).
Proof.
  unfold action_then. destruct (truthy done);
    [apply ns_resolve | now apply ns_move].
Qed.

(** With no seek pending the handler never takes the seeking branch. *)
Lemma ns_onsuccess (action : IDBCursor -> M settle)
    (options : option CursorIterationOption) (result : option IDBCursor) :
  (forall c, CursorRuns.keeps_no_seek (action c)) ->
  CursorRuns.keeps_no_seek (onsuccess action options result).
Proof.
  intros Ha w Hw. unfold onsuccess. destruct result as [cursor|].
  - unfold bind at 1. unfold gets at 1. simpl. rewrite (proj1 Hw).
    revert w Hw.
    change (CursorRuns.keeps_no_seek
              (offsetPending <- gets offsetNotApplied ;;
               if offsetPending
               then
                 match get_offset options with
                 | Some n => cursor_advance cursor (n - 1)
                 | None => throw TypeError
                 end ;;
                 modify (set_offsetNotApplied false) ;;
                 ret None
               else
                 modify (fun w => set_curCount (curCount w + 1) w) ;;
                 p <- action cursor ;;
                 count <- gets curCount ;;
                 (if truthy (of_num (get_limit options))
                     && num_reached count (get_limit options)
                  then resolve else ret tt) ;;
                 ret (Some (cursor, p)))).
    apply ns_bind; [apply ns_gets | intros [|]].
    + apply ns_bind.
      * destruct (get_offset options); [now apply ns_move | apply ns_throw].
      * intros _. apply ns_bind; [now apply ns_quiet | intros _].
        apply ns_ret.
    + apply ns_bind; [now apply ns_quiet | intros _].
      apply ns_bind; [apply Ha | intros p0].
      apply ns_bind; [apply ns_gets | intros count].
      apply ns_bind; [| intros _; apply ns_ret].
      destruct (_ && _); [apply ns_resolve | apply ns_ret].
  - revert w Hw.
    change (CursorRuns.keeps_no_seek (resolve ;; ret (@None reaction))).
    apply ns_bind; [apply ns_resolve | intros _; apply ns_ret].
Qed.

Lemma ns_close {A} (m : M A) (w : world) :
  CursorRuns.keeps_no_seek m -> CursorRuns.no_seek w ->
  CursorRuns.no_seek (close (m w)).
Proof.
  intros Hm Hw. specialize (Hm w Hw).
  destruct (m w) as [[a | e] w']; simpl in *; trivial.
  now apply ns_record_obs.
Qed.

Lemma ns_dispatch (action : IDBCursor -> M settle)
    (options : option CursorIterationOption) (w : world) :
  (forall c, CursorRuns.keeps_no_seek (action c)) ->
  CursorRuns.no_seek w -> CursorRuns.no_seek (dispatch action options w).
Proof.
  intros Ha Hw. unfold dispatch.
  assert (Hidle : CursorRuns.no_seek (set_rq Idle w)) by exact Hw.
  destruct (rq w) as [|[result | error]]; trivial.
  - pose proof (ns_onsuccess action options result Ha (set_rq Idle w) Hidle)
      as Hs.
    destruct (onsuccess _ _ _ _) as [[[[c [done | e]]|] | e] w'];
      simpl in Hs; trivial.
    + apply ns_close; trivial. apply ns_action_then.
    + now apply ns_record_obs.
    + now apply ns_record_obs.
  - apply ns_close; trivial. apply ns_reject.
Qed.

Lemma ns_event_loop (fuel : nat) (action : IDBCursor -> M settle)
    (options : option CursorIterationOption) (w : world) :
  (forall c, CursorRuns.keeps_no_seek (action c)) ->
  CursorRuns.no_seek w ->
  CursorRuns.no_seek (event_loop fuel action options w).
Proof.
  intros Ha. revert w. induction fuel as [|fuel IH]; intros w Hw; simpl;
    trivial.
  destruct (rq w); trivial. apply IH. now apply ns_dispatch.
Qed.

(** What the truthiness of [from.key] and [from.primaryKey] decides, for
    any opener and any action of the two wrappers' shape. *)
Lemma seek_gate (open : host_call) (action : IDBCursor -> M settle)
    (deliver : IDBCursor -> obs) (p : source)
    (options : option CursorIterationOption) (f : From) :
  CursorRuns.is_seek (Call open) = false ->
  (forall c, grows (action c)) ->
  (forall c, CursorRuns.keeps_no_seek (action c)) ->
  (forall c w, exists r, action c w = (Ok r, record_obs (deliver c) w)) ->
  get_from options = Some f ->
  preflight options = None ->
  exists w0,
    iterateCursor
      (open, open_cursor p (get_query options) (get_direction options))
      options = inr w0
    /\ (truthy (from_key f) = false ->
        forall fuel, CursorRuns.no_seek (event_loop fuel action options w0))
    /\ (truthy (from_key f) = false ->
        truthy (of_num (get_offset options)) = false ->
        forall c fuel,
          open_cursor p (get_query options) (get_direction options) = Some c ->
          exists rest,
            trace (event_loop (S fuel) action options w0)
            = [Call open; deliver c] ++ rest)
    /\ (truthy (from_key f) = true ->
        forall c fuel,
          open_cursor p (get_query options) (get_direction options) = Some c ->
          exists rest,
            trace (event_loop (S fuel) action options w0)
            = [Call open;
               Call (if truthy (from_primaryKey f)
                     then ContinuePrimaryKey (from_key f) (from_primaryKey f)
                     else Continue (from_key f))] ++ rest).
Proof.
  intros Hopen Hg Hns Ha Hf Hp.
  assert (Hk : get_from_key options = from_key f)
    by (unfold get_from_key; now rewrite Hf).
  assert (Hpk : get_from_primaryKey options = from_primaryKey f)
    by (unfold get_from_primaryKey; now rewrite Hf).
  set (requester :=
         (open, open_cursor p (get_query options) (get_direction options))).
  destruct (iterateCursor requester options) as [e | w0] eqn:H0.
  { unfold iterateCursor in H0. rewrite Hp in H0. discriminate. }
  assert (Hw0 : w0 = {| offsetNotApplied := truthy (of_num (get_offset options));
                        fromIndexNotApplied := truthy (get_from_key options);
                        curCount := 0; returned := Pending;
                        rq := Queued (Succeeds (snd requester));
                        trace := [Call (fst requester)] |}).
  { unfold iterateCursor in H0. rewrite Hp in H0. now injection H0 as <-. }
  assert (Hq : rq w0 <> Idle) by (rewrite Hw0; simpl; discriminate).
  exists w0. split; [reflexivity |]. split; [| split].
  - intros Hfalsy fuel. apply ns_event_loop; trivial.
    rewrite Hw0, Hk, Hfalsy. split; [reflexivity |].
    change (filter CursorRuns.is_seek [Call open] = []).
    unfold filter. now rewrite Hopen.
  - intros Hfalsy Ho c fuel Hc.
    apply (first_turn requester action options fuel w0
             [Call open; deliver c] Hg Hq).
    apply (deliver_first_turn requester action options c w0 (deliver c)).
    + exact H0.
    + exact Hc.
    + now rewrite Hk.
    + exact Ho.
    + intros w. apply Ha.
  - intros Htruthy c fuel Hc.
    apply (first_turn requester action options fuel w0 _ Hg Hq).
    destruct (seek_first_turn requester action options c w0 H0 Hc)
      as [t Ht]; [now rewrite Hk |].
    rewrite Hpk, Hk in Ht. now exists t.
Qed.

(** C10.  The seek is decided by truthiness, for [iterateKeys] and for
    [iterateValues] alike.  If [from.key] is the number 0 or the empty
    string, no seek is pending at any point of the run and no seeking
    call is ever issued, whatever the other options; with no offset
    pending the first cursor-ready event delivers the cursor's first
    position.  If [from.key] is truthy and [from.primaryKey] is falsy
    (absent, or a key such as 0), the first event is answered with the
    key-only [cursor.continue(from.key)]; only a truthy
    [from.primaryKey] leads to
    [cursor.continuePrimaryKey(from.key, from.primaryKey)]. *)
Theorem from_seek_is_gated_on_truthiness (p : source)
    (options : option CursorIterationOption) (f : From) (fuel : nat)
    (keyAction : CursorValue1 -> settle)
    (valueAction : CursorValue2 -> settle) :
  get_from options = Some f ->
  preflight options = None ->
  ((from_key f = VNum 0 \/ from_key f = VStr EmptyString) ->
   (exists w,
      iterateKeys p fuel keyAction options = inr w
      /\ fromIndexNotApplied w = false
      /\ filter CursorRuns.is_seek (trace w) = [])
   /\ (exists w,
         iterateValues p fuel valueAction options = inr w
         /\ fromIndexNotApplied w = false
         /\ filter CursorRuns.is_seek (trace w) = []))
  /\ ((from_key f = VNum 0 \/ from_key f = VStr EmptyString) ->
      truthy (of_num (get_offset options)) = false ->
      forall c,
        open_cursor p (get_query options) (get_direction options) = Some c ->
        c_pos c = 0%nat
        /\ (exists w rest,
              iterateKeys p (S fuel) keyAction options = inr w
              /\ trace w
                 = [Call (OpenKeyCursor (get_query options)
                            (get_direction options));
                    DeliverKeys {| key := Host.key c;
                                   primaryKey := Host.primaryKey c |}]
                   ++ rest)
        /\ (exists w rest,
              iterateValues p (S fuel) valueAction options = inr w
              /\ trace w
                 = [Call (OpenCursor (get_query options)
                            (get_direction options));
                    DeliverValue {| value := Host.value c;
                                    key2 := Host.key c;
                                    primaryKey2 := Host.primaryKey c |}]
                   ++ rest))
  /\ (truthy (from_key f) = true ->
      truthy (from_primaryKey f) = false ->
      forall c,
        open_cursor p (get_query options) (get_direction options) = Some c ->
        (exists w rest,
           iterateKeys p (S fuel) keyAction options = inr w
           /\ trace w
              = [Call (OpenKeyCursor (get_query options)
                         (get_direction options));
                 Call (Continue (from_key f))] ++ rest)
        /\ (exists w rest,
              iterateValues p (S fuel) valueAction options = inr w
              /\ trace w
                 = [Call (OpenCursor (get_query options)
                            (get_direction options));
                    Call (Continue (from_key f))] ++ rest))
  /\ (truthy (from_key f) = true ->
      truthy (from_primaryKey f) = true ->
      forall c,
        open_cursor p (get_query options) (get_direction options) = Some c ->
        (exists w rest,
           iterateKeys p (S fuel) keyAction options = inr w
           /\ trace w
              = [Call (OpenKeyCursor (get_query options)
                         (get_direction options));
                 Call (ContinuePrimaryKey (from_key f) (from_primaryKey f))]
                ++ rest)
        /\ (exists w rest,
              iterateValues p (S fuel) valueAction options = inr w
              /\ trace w
                 = [Call (OpenCursor (get_query options)
                            (get_direction options));
                    Call (ContinuePrimaryKey (from_key f)
                            (from_primaryKey f))]
                   ++ rest)).
Proof.
  intros Hf Hp.
  destruct (seek_gate
              (OpenKeyCursor (get_query options) (get_direction options))
              (keys_action keyAction)
              (fun c => DeliverKeys {| key := Host.key c;
                                       primaryKey := Host.primaryKey c |})
              p options f eq_refl (grows_keys_action keyAction)
              (ns_keys_action keyAction)
              (fun c w => ex_intro _ _ eq_refl) Hf Hp)
    as (wk & Hk0 & Hk1 & Hk2 & Hk3).
  destruct (seek_gate
              (OpenCursor (get_query options) (get_direction options))
              (values_action valueAction)
              (fun c => DeliverValue {| value := Host.value c;
                                        key2 := Host.key c;
                                        primaryKey2 := Host.primaryKey c |})
              p options f eq_refl (grows_values_action valueAction)
              (ns_values_action valueAction)
              (fun c w => ex_intro _ _ eq_refl) Hf Hp)
    as (wv & Hv0 & Hv1 & Hv2 & Hv3).
  assert (Hfalsy : from_key f = VNum 0 \/ from_key f = VStr EmptyString ->
                   truthy (from_key f) = false)
    by (intros [-> | ->]; reflexivity).
  unfold iterateKeys, iterateValues. rewrite Hk0, Hv0.
  split; [| split; [| split]].
  - intros Hz. specialize (Hfalsy Hz). split.
    + eexists. split; [reflexivity |]. apply (Hk1 Hfalsy fuel).
    + eexists. split; [reflexivity |]. apply (Hv1 Hfalsy fuel).
  - intros Hz Ho c Hc. specialize (Hfalsy Hz).
    split; [exact (open_cursor_first _ _ _ _ Hc) | split].
    + destruct (Hk2 Hfalsy Ho c fuel Hc) as [rest Hrest].
      eexists. exists rest. split; [reflexivity | exact Hrest].
    + destruct (Hv2 Hfalsy Ho c fuel Hc) as [rest Hrest].
      eexists. exists rest. split; [reflexivity | exact Hrest].
  - intros Ht Hpk c Hc. split.
    + destruct (Hk3 Ht c fuel Hc) as [rest Hrest]. rewrite Hpk in Hrest.
      eexists. exists rest. split; [reflexivity | exact Hrest].
    + destruct (Hv3 Ht c fuel Hc) as [rest Hrest]. rewrite Hpk in Hrest.
      eexists. exists rest. split; [reflexivity | exact Hrest].
  - intros Ht Hpk c Hc. split.
    + destruct (Hk3 Ht c fuel Hc) as [rest Hrest]. rewrite Hpk in Hrest.
      eexists. exists rest. split; [reflexivity | exact Hrest].
    + destruct (Hv3 Ht c fuel Hc) as [rest Hrest]. rewrite Hpk in Hrest.
      eexists. exists rest. split; [reflexivity | exact Hrest].
Qed.

(** [{from: {key: 0}, offset: 2}] over the keys 0, 1, 2 never seeks, with
    [iterateKeys] and [iterateValues]; [{from: {key: 3, primaryKey: 0}}]
    over the keys 1 to 5 seeks with [cursor.continue(3)]. *)
Lemma from_seek_is_gated_on_truthiness_witness :
  ((exists w,
      iterateKeys (store_of_keys [0; 1; 2]) 4 keep_going
        (Some (CursorRuns.with_from_and_offset (VNum 0) 2)) = inr w
      /\ fromIndexNotApplied w = false
      /\ filter CursorRuns.is_seek (trace w) = [])
   /\ (exists w,
         iterateValues (store_of_keys [0; 1; 2]) 4
           (fun _ => Fulfils VUndefined)
           (Some (CursorRuns.with_from_and_offset (VNum 0) 2)) = inr w
         /\ fromIndexNotApplied w = false
         /\ filter CursorRuns.is_seek (trace w) = []))
  /\ (exists w rest,
        iterateKeys five_keys 1 keep_going
          (Some (with_from (VNum 3) (VNum 0))) = inr w
        /\ trace w
           = [Call (OpenKeyCursor None None); Call (Continue (VNum 3))]
             ++ rest).
Proof.
  split.
  - refine (proj1
      (from_seek_is_gated_on_truthiness (store_of_keys [0; 1; 2])
         (Some (CursorRuns.with_from_and_offset (VNum 0) 2))
         {| from_key := VNum 0; from_primaryKey := VUndefined |}
         4 keep_going (fun _ => Fulfils VUndefined) _ _) _).
    + reflexivity.
    + reflexivity.
    + left. reflexivity.
  - refine (proj1 (proj1 (proj2 (proj2
      (from_seek_is_gated_on_truthiness five_keys
         (Some (with_from (VNum 3) (VNum 0)))
         {| from_key := VNum 3; from_primaryKey := VNum 0 |}
         0 keep_going (fun _ => Fulfils VUndefined) _ _))) _ _
      {| c_is_index := false; c_direction := next;
         c_records := src_records five_keys; c_pos := 0 |} _)).
    + reflexivity.
    + reflexivity.
    + reflexivity.
    + reflexivity.
    + reflexivity.
Defined.

(** *** Applying the offset *)

(** With no seek pending and an offset [n] of at least 2, the first
    handler run calls [cursor.advance(n - 1)] and delivers nothing; the
    request will fire next with the cursor [n - 1] records further on. *)
Lemma offset_skips (requester : host_call * option IDBCursor)
    (action : IDBCursor -> M settle)
    (options : option CursorIterationOption) (c : IDBCursor) (w0 : world)
    (n : Z) :
  iterateCursor requester options = inr w0 ->
  snd requester = Some c ->
  truthy (get_from_key options) = false ->
  get_offset options = Some n ->
  2 <= n <= 4294967296 ->
  trace (dispatch action options w0)
  = [Call (fst requester); Call (Advance (n - 1))]
  /\ rq (dispatch action options w0)
     = Queued (Succeeds (cursor_at c (c_pos c + Z.to_nat (n - 1))))
  /\ offsetNotApplied (dispatch action options w0) = false
  /\ returned (dispatch action options w0) = Pending.
Proof.
  unfold iterateCursor. destruct (preflight options); [discriminate |].
  intros [= <-] Hc Hk Ho Hn. rewrite Hc, Hk, Ho.
  assert (Ht : truthy (of_num (Some n)) = true).
  { simpl. destruct (Z.eqb_spec n 0); [lia | reflexivity]. }
  rewrite Ht.
  unfold dispatch. simpl. unfold onsuccess, bind, gets. simpl.
  rewrite Ho. simpl.
  unfold cursor_advance, move, bind, gets, modify, throw, advance_target.
  simpl.
  destruct (Z.leb_spec (n - 1) 0); [lia |].
  destruct (Z.ltb_spec 4294967295 (n - 1)); [lia |].
  simpl. repeat split.
Qed.

End CursorFacts.

(* ================================================================== *)
(** ** Whole runs of the cursor iteration engine *)
(* ================================================================== *)

Module CursorRunsFacts.

Import Cursor CursorRuns.

(** *** Reading traces *)

Lemma delivered_app (t t' : list obs) :
  delivered (t ++ t') = delivered t ++ delivered t'.
Proof.
  induction t as [|o t IH]; simpl; trivial.
  destruct (delivered_key o); simpl; now rewrite IH.
Qed.

Lemma delivered_values_app (t t' : list obs) :
  delivered_values (t ++ t') = delivered_values t ++ delivered_values t'.
Proof.
  induction t as [|o t IH]; simpl; trivial.
  destruct o; simpl; now rewrite IH.
Qed.

Lemma delivered_turns_keys (options : option CursorIterationOption)
    (count : Z) (rs : list record) :
  delivered (turns deliver_keys options count rs) = map r_key rs.
Proof.
  revert count. induction rs as [|r rs IH]; intros count; simpl; trivial.
  rewrite delivered_app. simpl. rewrite IH.
  now destruct (limit_reached _ _).
Qed.

Lemma delivered_turns_value (options : option CursorIterationOption)
    (count : Z) (rs : list record) :
  delivered (turns deliver_value options count rs) = map r_key rs
  /\ delivered_values (turns deliver_value options count rs) = map r_value rs.
Proof.
  revert count. induction rs as [|r rs IH]; intros count; simpl.
  - now split.
  - rewrite delivered_app, delivered_values_app. simpl.
    destruct (IH (count + 1)) as [-> ->].
    now destruct (limit_reached _ _).
Qed.

Lemma skipn_nth (rs : list record) (i : nat) (r : record) :
  nth_error rs i = Some r -> skipn i rs = r :: skipn (S i) rs.
Proof.
  revert i. induction rs as [|r' rs IH]; intros [|i] H; simpl in *;
    try discriminate.
  - now injection H as ->.
  - now apply IH.
Qed.

Lemma resolve_with_twice (p : promise unit) :
  resolve_with tt (resolve_with tt p) = resolve_with tt p.
Proof. now destruct p. Qed.

(** *** One turn of the loop in the iterating phase *)

(** The exhausted cursor: [resolve()] and nothing else. *)
Lemma null_turn (action : IDBCursor -> M settle)
    (options : option CursorIterationOption) (w : world) :
  rq w = Queued (Succeeds None) ->
  dispatch action options w
  = {| offsetNotApplied := offsetNotApplied w;
       fromIndexNotApplied := fromIndexNotApplied w;
       curCount := curCount w;
       returned := resolve_with tt (returned w);
       rq := Idle;
       trace := trace w ++ [ResolveCalled] |}.
Proof. intros Hq. unfold dispatch. rewrite Hq. reflexivity. Qed.

(** A live cursor, no seek and no offset pending, and an action whose
    promise is fulfilled (with [undefined], as the wrappers make it). *)
Lemma deliver_turn (action : IDBCursor -> M settle)
    (options : option CursorIterationOption) (w : world) (c : IDBCursor)
    (o : obs) :
  fromIndexNotApplied w = false ->
  offsetNotApplied w = false ->
  rq w = Queued (Succeeds (Some c)) ->
  (forall w', action c w' = (Ok (Fulfils VUndefined), record_obs o w')) ->
  dispatch action options w
  = {| offsetNotApplied := false;
       fromIndexNotApplied := false;
       curCount := curCount w + 1;
       returned := if limit_reached options (curCount w + 1)
                   then resolve_with tt (returned w) else returned w;
       rq := Queued (Succeeds (cursor_at c (S (c_pos c))));
       trace := trace w ++ o
                  :: (if limit_reached options (curCount w + 1)
                      then [ResolveCalled] else [])
                  ++ [Call (Continue VUndefined)] |}.
Proof.
  intros Hf Ho Hq Ha. unfold dispatch. rewrite Hq.
  unfold onsuccess, bind, gets, modify. simpl.
  rewrite Hf. simpl. rewrite Ho. simpl. rewrite Ha. simpl.
  unfold limit_reached.
  destruct (truthy (of_num (get_limit options))
            && num_reached (curCount w + 1) (get_limit options)); simpl;
    unfold set_rq, record_obs, set_returned, set_curCount; simpl;
    rewrite Hf, Ho, <- ?app_assoc; reflexivity.
Qed.

(** *** The iterating phase as a whole *)

(** From the cursor at index [i] on, with enough turns of the loop, the
    engine produces the trace [turns] describes and ends resolved. *)
Lemma run_from (action : IDBCursor -> M settle) (deliver : record -> obs)
    (options : option CursorIterationOption) (is_index : bool)
    (d : IDBCursorDirection) (rs : list record) :
  (forall c r w, current c = Some r ->
     action c w = (Ok (Fulfils VUndefined), record_obs (deliver r) w)) ->
  forall (k i fuel : nat) (w : world),
    (List.length rs - i = k)%nat ->
    (k < fuel)%nat ->
    fromIndexNotApplied w = false ->
    offsetNotApplied w = false ->
    rq w = Queued (Succeeds (at_pos is_index d rs i)) ->
    rq (event_loop fuel action options w) = Idle
    /\ trace (event_loop fuel action options w)
       = trace w ++ turns deliver options (curCount w) (skipn i rs)
    /\ returned (event_loop fuel action options w)
       = resolve_with tt (returned w).
Proof.
  intros Ha. induction k as [|k IH]; intros i fuel w Hk Hfuel Hf Ho Hq;
    (destruct fuel as [|fuel]; [lia |]); simpl; rewrite Hq.
  - assert (Hnone : at_pos is_index d rs i = None).
    { unfold at_pos, cursor_at. simpl.
      destruct (Nat.ltb_spec i (List.length rs)); [lia | reflexivity]. }
    rewrite Hnone in Hq. rewrite (null_turn action options w Hq).
    rewrite CursorFacts.event_loop_idle by reflexivity. simpl.
    rewrite skipn_all2 by lia. now repeat split.
  - assert (Hlt : (i < List.length rs)%nat) by lia.
    destruct (nth_error rs i) as [r|] eqn:Hr;
      [| apply nth_error_None in Hr; lia].
    set (c := {| c_is_index := is_index; c_direction := d; c_records := rs;
                 c_pos := i |}).
    assert (Hsome : at_pos is_index d rs i = Some c).
    { unfold at_pos, cursor_at. simpl.
      destruct (Nat.ltb_spec i (List.length rs)); [reflexivity | lia]. }
    rewrite Hsome in Hq.
    rewrite (deliver_turn action options w c (deliver r) Hf Ho Hq
               (fun w' => Ha c r w' Hr)).
    match goal with
    | |- context [event_loop fuel action options ?w1] =>
        destruct (IH (S i) fuel w1) as (Hidle & Htrace & Hret);
          [lia | lia | reflexivity | reflexivity | reflexivity |]
    end.
    rewrite Hidle, Htrace, Hret. simpl.
    rewrite (skipn_nth rs i r Hr). simpl.
    split; [reflexivity | split].
    + rewrite <- app_assoc. f_equal. simpl. f_equal.
      now rewrite <- app_assoc.
    + destruct (limit_reached _ _); [apply resolve_with_twice | reflexivity].
Qed.

Lemma keys_action_fulfils (action : CursorValue1 -> settle) :
  always_fulfils action ->
  forall c r w, current c = Some r ->
    keys_action action c w
    = (Ok (Fulfils VUndefined), record_obs (deliver_keys r) w).
Proof.
  intros Ha c r w Hr. unfold keys_action, bind, modify, ret, deliver_keys.
  unfold Host.key, Host.primaryKey. rewrite Hr.
  destruct (Ha {| key := r_key r; primaryKey := r_primaryKey r |}) as [v ->].
  reflexivity.
Qed.

Lemma values_action_fulfils (action : CursorValue2 -> settle) :
  always_fulfils action ->
  forall c r w, current c = Some r ->
    values_action action c w
    = (Ok (Fulfils VUndefined), record_obs (deliver_value r) w).
Proof.
  intros Ha c r w Hr. unfold values_action, bind, modify, ret, deliver_value.
  unfold Host.value, Host.key, Host.primaryKey. rewrite Hr.
  destruct (Ha {| value := r_value r; key2 := r_key r;
                  primaryKey2 := r_primaryKey r |}) as [v ->].
  reflexivity.
Qed.

(** *** Plain runs: no seek, no offset *)

Lemma open_cursor_at_pos (p : source) (options : option CursorIterationOption) :
  open_cursor p (get_query options) (get_direction options)
  = at_pos (src_is_index p)
      (match get_direction options with Some d => d | None => next end)
      (walk p options) 0.
Proof. reflexivity. Qed.

(** Shared by [iterateKeys] and [iterateValues]: the world the promise
    executor leaves, run to the end. *)
Lemma plain_run (open : host_call) (action : IDBCursor -> M settle)
    (deliver : record -> obs) (p : source)
    (options : option CursorIterationOption) (fuel : nat) :
  (forall c r w, current c = Some r ->
     action c w = (Ok (Fulfils VUndefined), record_obs (deliver r) w)) ->
  truthy (get_from_key options) = false ->
  truthy (of_num (get_offset options)) = false ->
  preflight options = None ->
  (List.length (walk p options) < fuel)%nat ->
  exists w0,
    iterateCursor
      (open, open_cursor p (get_query options) (get_direction options))
      options = inr w0
    /\ rq (event_loop fuel action options w0) = Idle
    /\ trace (event_loop fuel action options w0)
       = Call open :: turns deliver options 0 (walk p options)
    /\ returned (event_loop fuel action options w0) = Resolved tt.
Proof.
  intros Ha Hk Ho Hp Hfuel. unfold iterateCursor. rewrite Hp, Hk, Ho.
  eexists. split; [reflexivity |].
  match goal with
  | |- context [event_loop fuel action options ?w0] =>
      destruct (run_from action deliver options (src_is_index p)
                  (match get_direction options with
                   | Some d => d | None => next end)
                  (walk p options) Ha
                  (List.length (walk p options) - 0) 0 fuel w0)
        as (Hidle & Htrace & Hret);
        [reflexivity | lia | reflexivity | reflexivity
        | simpl; now rewrite open_cursor_at_pos |]
  end.
  rewrite Hidle, Htrace, Hret. now repeat split.
Qed.

(** With no seek and no offset, and a callback whose promise is always
    fulfilled, [iterateKeys] hands every record of the cursor to the
    callback, in cursor order, whatever the limit; the run ends resolved
    with nothing queued, and its trace is the one [turns] describes. *)
Theorem iterateKeys_delivers_every_record (p : source)
    (options : option CursorIterationOption)
    (action : CursorValue1 -> settle) (fuel : nat) :
  truthy (get_from_key options) = false ->
  truthy (of_num (get_offset options)) = false ->
  preflight options = None ->
  always_fulfils action ->
  (List.length (walk p options) < fuel)%nat ->
  exists w,
    iterateKeys p fuel action options = inr w
    /\ trace w
       = Call (OpenKeyCursor (get_query options) (get_direction options))
         :: turns deliver_keys options 0 (walk p options)
    /\ delivered (trace w) = map r_key (walk p options)
    /\ returned w = Resolved tt
    /\ rq w = Idle.
Proof.
  intros Hk Ho Hp Ha Hfuel.
  destruct (plain_run
              (OpenKeyCursor (get_query options) (get_direction options))
              (keys_action action) deliver_keys p options fuel
              (keys_action_fulfils action Ha) Hk Ho Hp Hfuel)
    as (w0 & H0 & Hidle & Htrace & Hret).
  unfold iterateKeys. rewrite H0. eexists. split; [reflexivity |].
  rewrite Htrace. repeat split; trivial.
  simpl. apply delivered_turns_keys.
Qed.

(** Keys 1 to 5, no options. *)
Lemma iterateKeys_delivers_every_record_witness :
  exists w,
    iterateKeys five_keys 6 keep_going None = inr w
    /\ trace w
       = Call (OpenKeyCursor None None)
         :: turns deliver_keys None 0 (walk five_keys None)
    /\ delivered (trace w) = map r_key (walk five_keys None)
    /\ returned w = Resolved tt
    /\ rq w = Idle.
Proof.
  apply (iterateKeys_delivers_every_record five_keys None keep_going 6).
  - reflexivity.
  - reflexivity.
  - reflexivity.
  - intros v. exists VUndefined. reflexivity.
  - simpl. lia.
Defined.

(** The same for [iterateValues]: every record's value, key and primary
    key reach the callback, in cursor order. *)
Theorem iterateValues_delivers_every_record (p : source)
    (options : option CursorIterationOption)
    (action : CursorValue2 -> settle) (fuel : nat) :
  truthy (get_from_key options) = false ->
  truthy (of_num (get_offset options)) = false ->
  preflight options = None ->
  always_fulfils action ->
  (List.length (walk p options) < fuel)%nat ->
  exists w,
    iterateValues p fuel action options = inr w
    /\ trace w
       = Call (OpenCursor (get_query options) (get_direction options))
         :: turns deliver_value options 0 (walk p options)
    /\ delivered_values (trace w) = map r_value (walk p options)
    /\ delivered (trace w) = map r_key (walk p options)
    /\ returned w = Resolved tt
    /\ rq w = Idle.
Proof.
  intros Hk Ho Hp Ha Hfuel.
  destruct (plain_run
              (OpenCursor (get_query options) (get_direction options))
              (values_action action) deliver_value p options fuel
              (values_action_fulfils action Ha) Hk Ho Hp Hfuel)
    as (w0 & H0 & Hidle & Htrace & Hret).
  unfold iterateValues. rewrite H0. eexists. split; [reflexivity |].
  rewrite Htrace. repeat split; trivial; simpl;
    apply delivered_turns_value.
Qed.

Lemma iterateValues_delivers_every_record_witness :
  exists w,
    iterateValues five_keys 6 (fun _ => Fulfils VUndefined) None = inr w
    /\ trace w
       = Call (OpenCursor None None)
         :: turns deliver_value None 0 (walk five_keys None)
    /\ delivered_values (trace w) = map r_value (walk five_keys None)
    /\ delivered (trace w) = map r_key (walk five_keys None)
    /\ returned w = Resolved tt
    /\ rq w = Idle.
Proof.
  apply (iterateValues_delivers_every_record five_keys None
           (fun _ => Fulfils VUndefined) 6).
  - reflexivity.
  - reflexivity.
  - reflexivity.
  - intros v. exists VUndefined. reflexivity.
  - simpl. lia.
Defined.



(** *** The limit *)





(** *** The offset *)




(** *** The empty cursor *)

(** If no record matches, the run resolves at once without calling the
    callback, whatever seek, offset or limit the options ask for. *)
Theorem empty_cursor_resolves (p : source)
    (options : option CursorIterationOption) (fuel : nat)
    (keyAction : CursorValue1 -> settle)
    (valueAction : CursorValue2 -> settle) :
  preflight options = None ->
  walk p options = [] ->
  (exists w,
     iterateKeys p (S fuel) keyAction options = inr w
     /\ trace w = [Call (OpenKeyCursor (get_query options)
                           (get_direction options)); ResolveCalled]
     /\ returned w = Resolved tt
     /\ rq w = Idle)
  /\ (exists w,
        iterateValues p (S fuel) valueAction options = inr w
        /\ trace w = [Call (OpenCursor (get_query options)
                              (get_direction options)); ResolveCalled]
        /\ returned w = Resolved tt
        /\ rq w = Idle).
Proof.
  intros Hp Hw.
  assert (Hnone : open_cursor p (get_query options) (get_direction options)
                  = None).
  { rewrite open_cursor_at_pos, Hw. reflexivity. }
  split.
  - unfold iterateKeys, iterateCursor. rewrite Hp, Hnone.
    eexists. split; [reflexivity |]. cbn [event_loop rq snd].
    rewrite null_turn by reflexivity.
    rewrite CursorFacts.event_loop_idle by reflexivity.
    now repeat split.
  - unfold iterateValues, iterateCursor. rewrite Hp, Hnone.
    eexists. split; [reflexivity |]. cbn [event_loop rq snd].
    rewrite null_turn by reflexivity.
    rewrite CursorFacts.event_loop_idle by reflexivity.
    now repeat split.
Qed.

(** An empty store, with a seek and an offset asked for. *)
Lemma empty_cursor_resolves_witness :
  exists w,
    iterateKeys (store_of_keys []) 1 keep_going
      (Some {| from := Some {| from_key := VNum 7;
                               from_primaryKey := VUndefined |};
               limit := Some 3; offset := Some 2; query := None;
               direction := None |}) = inr w
    /\ trace w = [Call (OpenKeyCursor None None); ResolveCalled]
    /\ returned w = Resolved tt
    /\ rq w = Idle.
Proof.
  refine (proj1 (empty_cursor_resolves (store_of_keys []) _ 0 keep_going
                   (fun _ => Fulfils VUndefined) _ _)).
  - reflexivity.
  - reflexivity.
Defined.

(** *** A callback that fails *)

Lemma reject_turn (action : IDBCursor -> M settle)
    (options : option CursorIterationOption) (w : world) (c : IDBCursor)
    (o : obs) (e : jserror) :
  fromIndexNotApplied w = false ->
  offsetNotApplied w = false ->
  rq w = Queued (Succeeds (Some c)) ->
  (forall w', action c w' = (Ok (Rejects e), record_obs o w')) ->
  dispatch action options w
  = {| offsetNotApplied := false;
       fromIndexNotApplied := false;
       curCount := curCount w + 1;
       returned := if limit_reached options (curCount w + 1)
                   then resolve_with tt (returned w) else returned w;
       rq := Idle;
       trace := trace w ++ o
                  :: (if limit_reached options (curCount w + 1)
                      then [ResolveCalled] else [])
                  ++ [UnhandledRejection e] |}.
Proof.
  intros Hf Ho Hq Ha. unfold dispatch. rewrite Hq.
  unfold onsuccess, bind, gets, modify. simpl.
  rewrite Hf. simpl. rewrite Ho. simpl. rewrite Ha. simpl.
  unfold limit_reached.
  destruct (truthy (of_num (get_limit options))
            && num_reached (curCount w + 1) (get_limit options)); simpl;
    unfold set_rq, record_obs, set_returned, set_curCount; simpl;
    rewrite Hf, Ho, <- ?app_assoc; reflexivity.
Qed.

(** If the callback's promise is rejected at the first record (no seek,
    no offset), the run stops there: no [cursor.continue()] follows, the
    rejection is handled by nobody, and the returned promise is never
    rejected; it stays pending unless the limit was already reached
    with that one delivery. *)
Theorem rejected_callback_stalls_the_run (p : source)
    (options : option CursorIterationOption)
    (action : CursorValue1 -> settle) (fuel : nat) (r : record)
    (rest : list record) (e : jserror) :
  truthy (get_from_key options) = false ->
  truthy (of_num (get_offset options)) = false ->
  preflight options = None ->
  walk p options = r :: rest ->
  action {| key := r_key r; primaryKey := r_primaryKey r |} = Rejects e ->
  exists w,
    iterateKeys p (S fuel) action options = inr w
    /\ trace w
       = [Call (OpenKeyCursor (get_query options) (get_direction options));
          deliver_keys r]
         ++ (if limit_reached options 1 then [ResolveCalled] else [])
         ++ [UnhandledRejection e]
    /\ returned w
       = (if limit_reached options 1 then Resolved tt else Pending)
    /\ rq w = Idle.
Proof.
  intros Hk Ho Hp Hw Ha.
  unfold iterateKeys, iterateCursor. rewrite Hp, Hk, Ho.
  eexists. split; [reflexivity |]. cbn [event_loop rq snd].
  rewrite open_cursor_at_pos, Hw.
  match goal with
  | |- context [dispatch ?a ?o ?w0] =>
      rewrite (reject_turn a o w0
                 {| c_is_index := src_is_index p;
                    c_direction := match get_direction options with
                                   | Some d => d | None => next end;
                    c_records := r :: rest; c_pos := 0 |}
                 (deliver_keys r) e)
        by (trivial; intros w'; unfold keys_action, bind, modify, ret;
            simpl; unfold Host.key, Host.primaryKey; simpl;
            now rewrite Ha)
  end.
  rewrite CursorFacts.event_loop_idle by reflexivity.
  cbn [trace returned rq curCount]. now repeat split.
Qed.

Lemma rejected_callback_stalls_the_run_witness :
  exists w,
    iterateKeys five_keys 1 (fun _ => Rejects (Error "boom")) None = inr w
    /\ trace w
       = [Call (OpenKeyCursor None None);
          deliver_keys {| r_key := VNum 1; r_primaryKey := VNum 1;
                          r_value := VObj [("id", VNum 1)] |}]
         ++ (if limit_reached None 1 then [ResolveCalled] else [])
         ++ [UnhandledRejection (Error "boom")]
    /\ returned w = (if limit_reached None 1 then Resolved tt else Pending)
    /\ rq w = Idle.
Proof.
  apply (rejected_callback_stalls_the_run five_keys None
           (fun _ => Rejects (Error "boom")) 0
           {| r_key := VNum 1; r_primaryKey := VNum 1;
              r_value := VObj [("id", VNum 1)] |}
           (skipn 1 (src_records five_keys)) (Error "boom")).
  - reflexivity.
  - reflexivity.
  - reflexivity.
  - reflexivity.
  - reflexivity.
Defined.

(** *** The seek *)

(** The handler run that seeks with a key only. *)
Lemma seek_turn (action : IDBCursor -> M settle)
    (options : option CursorIterationOption) (w : world) (c : IDBCursor) :
  fromIndexNotApplied w = true ->
  rq w = Queued (Succeeds (Some c)) ->
  truthy (get_from_primaryKey options) = false ->
  dispatch action options w
  = match continue_target c (get_from_key options) with
    | inl j =>
        {| offsetNotApplied := offsetNotApplied w;
           fromIndexNotApplied := false;
           curCount := curCount w;
           returned := returned w;
           rq := Queued (Succeeds (cursor_at c j));
           trace := trace w ++ [Call (Continue (get_from_key options))] |}
    | inr e =>
        {| offsetNotApplied := offsetNotApplied w;
           fromIndexNotApplied := true;
           curCount := curCount w;
           returned := returned w;
           rq := Idle;
           trace := trace w ++ [Call (Continue (get_from_key options));
                                Uncaught e] |}
    end.
Proof.
  intros Hf Hq Hpk. unfold dispatch. rewrite Hq.
  unfold onsuccess, bind, gets. simpl. rewrite Hf, Hpk. simpl.
  unfold cursor_continue, move, bind, gets, modify, throw. simpl.
  destruct (continue_target c (get_from_key options)); simpl;
    unfold set_fromIndexNotApplied, set_rq, record_obs; simpl;
    rewrite ?Hf, <- ?app_assoc; reflexivity.
Qed.

Lemma truthy_defined (k : jsval) : truthy k = true -> k <> VUndefined.
Proof. intros H ->. discriminate. Qed.

(** If [from.key] does not lie beyond the cursor's first position in the
    direction of travel (it equals the first key, say), the key-only seek
    [cursor.continue(from.key)] is refused by the host with a
    [DataError]: nothing is delivered and the promise is never settled. *)
Theorem from_key_at_first_position_fails (p : source)
    (options : option CursorIterationOption) (f : From) (c : IDBCursor)
    (fuel : nat) (action : CursorValue1 -> settle) :
  get_from options = Some f ->
  truthy (from_key f) = true ->
  truthy (from_primaryKey f) = false ->
  preflight options = None ->
  open_cursor p (get_query options) (get_direction options) = Some c ->
  reached (c_direction c) (from_key f) (Host.key c) = true ->
  exists w,
    iterateKeys p (S fuel) action options = inr w
    /\ trace w
       = [Call (OpenKeyCursor (get_query options) (get_direction options));
          Call (Continue (from_key f)); Uncaught DataError]
    /\ delivered (trace w) = []
    /\ returned w = Pending
    /\ rq w = Idle.
Proof.
  intros Hf Hk Hpk Hp Hc Hreached.
  assert (Hfk : get_from_key options = from_key f)
    by (unfold get_from_key; now rewrite Hf).
  assert (Hfpk : get_from_primaryKey options = from_primaryKey f)
    by (unfold get_from_primaryKey; now rewrite Hf).
  assert (Htarget : continue_target c (from_key f) = inr DataError).
  { unfold continue_target. rewrite Hreached.
    destruct (from_key f); try discriminate; reflexivity. }
  unfold iterateKeys, iterateCursor. rewrite Hp, Hfk, Hk, Hc.
  eexists. split; [reflexivity |]. cbn [event_loop rq snd].
  match goal with
  | |- context [dispatch ?a ?o ?w0] =>
      rewrite (seek_turn a o w0 c) by (trivial; now rewrite Hfpk)
  end.
  rewrite Hfk, Htarget.
  rewrite CursorFacts.event_loop_idle by reflexivity.
  now repeat split.
Qed.

(** Keys 1 to 5 with [{from: {key: 1}}]: the first key itself. *)
Lemma from_key_at_first_position_fails_witness :
  exists w,
    iterateKeys five_keys 1 keep_going
      (Some (with_from (VNum 1) VUndefined)) = inr w
    /\ trace w
       = [Call (OpenKeyCursor None None); Call (Continue (VNum 1));
          Uncaught DataError]
    /\ delivered (trace w) = []
    /\ returned w = Pending
    /\ rq w = Idle.
Proof.
  apply (from_key_at_first_position_fails five_keys
           (Some (with_from (VNum 1) VUndefined))
           {| from_key := VNum 1; from_primaryKey := VUndefined |}
           {| c_is_index := false; c_direction := next;
              c_records := src_records five_keys; c_pos := 0 |}
           0 keep_going).
  - reflexivity.
  - reflexivity.
  - reflexivity.
  - reflexivity.
  - reflexivity.
  - reflexivity.
Defined.




(** *** The primary-key-aware seek *)




(** *** Validation of the options *)

(** A negative offset, or a negative limit next to an acceptable offset,
    makes [iterateKeys] and [iterateValues] throw before the promise is
    created and before the cursor is opened. *)
Theorem negative_option_throws (p : source) (fuel : nat)
    (options : option CursorIterationOption) (n : Z)
    (keyAction : CursorValue1 -> settle)
    (valueAction : CursorValue2 -> settle) :
  n < 0 ->
  (get_offset options = Some n ->
   iterateKeys p fuel keyAction options
   = inl (Error "offset must be greater than 0")
   /\ iterateValues p fuel valueAction options
      = inl (Error "offset must be greater than 0"))
  /\ ((forall m, get_offset options = Some m -> 0 <= m) ->
      get_limit options = Some n ->
      iterateKeys p fuel keyAction options
      = inl (Error "limit must be greater than 0")
      /\ iterateValues p fuel valueAction options
         = inl (Error "limit must be greater than 0")).
Proof.
  intros Hn. split.
  - intros Ho.
    assert (Hp : preflight options
                 = Some (Error "offset must be greater than 0")).
    { unfold preflight. rewrite Ho. simpl.
      destruct (Z.eqb_spec n 0); [lia |].
      destruct (Z.ltb_spec n 1); [reflexivity | lia]. }
    unfold iterateKeys, iterateValues, iterateCursor. rewrite Hp.
    now split.
  - intros Ho Hl.
    assert (Hp : preflight options
                 = Some (Error "limit must be greater than 0")).
    { unfold preflight. rewrite Hl.
      destruct (get_offset options) as [m|]; simpl.
      - specialize (Ho m eq_refl).
        destruct (Z.eqb_spec m 0); simpl;
          [| destruct (Z.ltb_spec m 1); [lia |]]; simpl;
          (destruct (Z.eqb_spec n 0); [lia |]);
          (destruct (Z.ltb_spec n 1); [reflexivity | lia]).
      - destruct (Z.eqb_spec n 0); [lia |].
        destruct (Z.ltb_spec n 1); [reflexivity | lia]. }
    unfold iterateKeys, iterateValues, iterateCursor. rewrite Hp.
    now split.
Qed.

Lemma negative_option_throws_witness :
  iterateKeys five_keys 3 keep_going (Some (with_offset (-1)))
  = inl (Error "offset must be greater than 0")
  /\ iterateValues five_keys 3 (fun _ => Fulfils VUndefined)
       (Some (with_limit (-1)))
     = inl (Error "limit must be greater than 0").
Proof.
  split.
  - refine (proj1 (proj1
      (negative_option_throws five_keys 3 (Some (with_offset (-1))) (-1)
         keep_going (fun _ => Fulfils VUndefined) _) _)).
    + lia.
    + reflexivity.
  - refine (proj2 (proj2
      (negative_option_throws five_keys 3 (Some (with_limit (-1))) (-1)
         keep_going (fun _ => Fulfils VUndefined) _) _ _)).
    + lia.
    + discriminate.
    + reflexivity.
Defined.

(** *** Invariants of a run *)

Lemma skew_record (o : obs) (w : world) :
  skew (record_obs o w)
  = skew w - match delivered_key o with Some _ => 1 | None => 0 end.
Proof.
  unfold skew. simpl. rewrite delivered_app, length_app. simpl.
  destruct (delivered_key o); simpl; lia.
Qed.

Lemma shifts_ret {A} (a : A) : shifts 0 (ret a).
Proof. intros w. simpl. lia. Qed.

Lemma shifts_throw {A} (e : exn) : shifts 0 (@throw A e).
Proof. intros w. simpl. lia. Qed.

Lemma shifts_gets {A} (f : world -> A) : shifts 0 (gets f).
Proof. intros w. simpl. lia. Qed.

Lemma shifts_bind {A B} (n : Z) (m : M A) (k : A -> M B) :
  shifts n m -> (forall a, shifts 0 (k a)) -> shifts n (bind m k).
Proof.
  intros Hm Hk w. unfold bind. specialize (Hm w).
  destruct (m w) as [[a | e] w']; simpl in *; trivial.
  rewrite (Hk a w'). lia.
Qed.

Lemma shifts_bind_total {A B} (n n' : Z) (m : M A) (k : A -> M B) :
  shifts n m -> total m -> (forall a, shifts n' (k a)) ->
  shifts (n + n') (bind m k).
Proof.
  intros Hm Ht Hk w. unfold bind. specialize (Hm w).
  destruct (Ht w) as [a Ha]. destruct (m w) as [[a' | e] w']; simpl in *.
  - rewrite (Hk a' w'). lia.
  - discriminate.
Qed.

Lemma shifts_quiet (f : world -> world) :
  (forall w, curCount (f w) = curCount w /\ trace (f w) = trace w) ->
  shifts 0 (modify f).
Proof.
  intros H w. unfold skew. simpl. destruct (H w) as [-> ->]. lia.
Qed.

Lemma shifts_call (h : host_call) : shifts 0 (modify (record_obs (Call h))).
Proof. intros w. simpl. rewrite skew_record. simpl. lia. Qed.

Lemma shifts_resolve : shifts 0 resolve.
Proof.
  intros w. unfold resolve, modify. simpl. rewrite skew_record. simpl.
  unfold skew. simpl. lia.
Qed.

Lemma shifts_reject (e : jserror) : shifts 0 (reject e).
Proof.
  intros w. unfold reject, modify. simpl. rewrite skew_record. simpl.
  unfold skew. simpl. lia.
Qed.

Lemma shifts_move (h : host_call) (c : IDBCursor) (target : nat + exn) :
  shifts 0 (move h c target).
Proof.
  unfold move. apply shifts_bind; [apply shifts_call | intros _].
  apply shifts_bind; [apply shifts_gets | intros [|ev]].
  - destruct target; [now apply shifts_quiet | apply shifts_throw].
  - apply shifts_throw.
Qed.

Lemma shifts_action_then (c : IDBCursor) (done : jsval) :
  shifts 0 (action_then c done).
Proof.
  unfold action_then. destruct (truthy done);
    [apply shifts_resolve | apply shifts_move].
Qed.

Lemma shifts_onsuccess (action : IDBCursor -> M settle)
    (options : option CursorIterationOption) (result : option IDBCursor) :
  delivers_once action -> shifts 0 (onsuccess action options result).
Proof.
  intros Ha. unfold onsuccess. destruct result as [cursor|].
  - apply shifts_bind; [apply shifts_gets | intros [|]].
    + apply shifts_bind.
      * destruct (truthy _); apply shifts_move.
      * intros _. apply shifts_bind; [now apply shifts_quiet | intros _].
        apply shifts_ret.
    + apply shifts_bind; [apply shifts_gets | intros [|]].
      * apply shifts_bind.
        -- destruct (get_offset options);
             [apply shifts_move | apply shifts_throw].
        -- intros _. apply shifts_bind; [now apply shifts_quiet | intros _].
           apply shifts_ret.
      * change 0 with (1 + -1).
        apply shifts_bind_total.
        -- intros w. unfold skew. simpl. lia.
        -- intros w. now exists tt.
        -- intros _. apply shifts_bind; [apply Ha | intros p0].
           apply shifts_bind; [apply shifts_gets | intros count].
           apply shifts_bind; [| intros _; apply shifts_ret].
           destruct (_ && _); [apply shifts_resolve | apply shifts_ret].
  - apply shifts_bind; [apply shifts_resolve | intros _; apply shifts_ret].
Qed.

Lemma skew_close {A} (m : M A) (w : world) :
  shifts 0 m -> skew (close (m w)) = skew w.
Proof.
  intros Hm. specialize (Hm w).
  destruct (m w) as [[a | e] w']; simpl in *; [lia |].
  rewrite skew_record. simpl. lia.
Qed.

Lemma skew_dispatch (action : IDBCursor -> M settle)
    (options : option CursorIterationOption) (w : world) :
  delivers_once action -> skew (dispatch action options w) = skew w.
Proof.
  intros Ha. unfold dispatch. destruct (rq w) as [|[result | error]] eqn:Hq;
    trivial.
  - pose proof (shifts_onsuccess action options result Ha (set_rq Idle w))
      as Hs.
    destruct (onsuccess _ _ _ _) as [[[[c [done | e]]|] | e] w'];
      simpl in Hs.
    + rewrite (skew_close (action_then c done) w' (shifts_action_then c done)).
      rewrite Hs. unfold skew. simpl. lia.
    + rewrite skew_record. simpl. rewrite Hs. unfold skew. simpl. lia.
    + rewrite Hs. unfold skew. simpl. lia.
    + rewrite skew_record. simpl. rewrite Hs. unfold skew. simpl. lia.
  - rewrite (skew_close (onerror error) (set_rq Idle w) (shifts_reject error)).
    unfold skew. simpl. lia.
Qed.

Lemma skew_event_loop (fuel : nat) (action : IDBCursor -> M settle)
    (options : option CursorIterationOption) (w : world) :
  delivers_once action -> skew (event_loop fuel action options w) = skew w.
Proof.
  intros Ha. revert w. induction fuel as [|fuel IH]; intros w; simpl; trivial.
  destruct (rq w); trivial. rewrite IH. now apply skew_dispatch.
Qed.

Lemma keys_action_delivers_once (action : CursorValue1 -> settle) :
  delivers_once (keys_action action).
Proof.
  intros c. split; [| split].
  - intros w. unfold keys_action, bind, modify, ret. simpl.
    rewrite skew_record. simpl. lia.
  - intros w. unfold keys_action, bind, modify, ret. simpl. eexists.
    reflexivity.
  - now intros w Hs.
Qed.

Lemma values_action_delivers_once (action : CursorValue2 -> settle) :
  delivers_once (values_action action).
Proof.
  intros c. split; [| split].
  - intros w. unfold values_action, bind, modify, ret. simpl.
    rewrite skew_record. simpl. lia.
  - intros w. unfold values_action, bind, modify, ret. simpl. eexists.
    reflexivity.
  - now intros w Hs.
Qed.

(** At every point of every run, whatever the options and the callback,
    the closure variable [curCount] is the number of times the callback
    has been called. *)
Theorem curCount_counts_deliveries (p : source) (fuel : nat)
    (options : option CursorIterationOption)
    (keyAction : CursorValue1 -> settle)
    (valueAction : CursorValue2 -> settle) :
  match iterateKeys p fuel keyAction options with
  | inr w => counted w
  | inl _ => True
  end
  /\ match iterateValues p fuel valueAction options with
     | inr w => counted w
     | inl _ => True
     end.
Proof.
  assert (Hskew : forall w, skew w = 0 -> counted w).
  { intros w. unfold skew, counted. lia. }
  unfold iterateKeys, iterateValues, iterateCursor.
  destruct (preflight options); [now split |].
  split; apply Hskew.
  - rewrite skew_event_loop by apply keys_action_delivers_once. reflexivity.
  - rewrite skew_event_loop by apply values_action_delivers_once. reflexivity.
Qed.

End CursorRunsFacts.

(* ================================================================== *)
(** ** Properties of the point lookups *)
(* ================================================================== *)

Module LookupsFacts.

Import Lookups.

(** When no record matches the query, [get] and [getPrimaryKey] resolve
    with [undefined] while [requireGet] rejects with a [NoResultError],
    on a store and on an index alike. *)
Theorem missing_record_lookups (store : DbActions.ObjectStore.t)
    (idx : DbActions.Index.t) (q : key_query) :
  (matching (DbActions.ObjectStore.objectStore store) (Some q) = [] ->
   ObjectStore.get store q = Resolved VUndefined
   /\ ObjectStore.getPrimaryKey store q = Resolved VUndefined
   /\ ObjectStore.requireGet store q = Rejected NoResultError)
  /\ (matching (DbActions.Index.index idx) (Some q) = [] ->
      Index.get idx q = Resolved VUndefined
      /\ Index.getPrimaryKey idx q = Resolved VUndefined
      /\ Index.requireGet idx q = Rejected NoResultError).
Proof.
  split; intros Hm.
  - unfold ObjectStore.get, ObjectStore.getPrimaryKey, ObjectStore.requireGet,
      host_get, host_getKey. rewrite Hm. now repeat split.
  - unfold Index.get, Index.getPrimaryKey, Index.requireGet,
      host_get, host_getKey. rewrite Hm. now repeat split.
Qed.

(** Key 9 in the store of two tasks, and the name "milk" in its index. *)
Lemma missing_record_lookups_witness :
  (ObjectStore.get DbActions.todo_tasks (QKey (VNum 9)) = Resolved VUndefined
   /\ ObjectStore.getPrimaryKey DbActions.todo_tasks (QKey (VNum 9))
      = Resolved VUndefined
   /\ ObjectStore.requireGet DbActions.todo_tasks (QKey (VNum 9))
      = Rejected NoResultError)
  /\ (Index.get (DbActions.index_on DbActions.todo_tasks "name")
        (QKey (VStr "milk")) = Resolved VUndefined
      /\ Index.getPrimaryKey (DbActions.index_on DbActions.todo_tasks "name")
           (QKey (VStr "milk")) = Resolved VUndefined
      /\ Index.requireGet (DbActions.index_on DbActions.todo_tasks "name")
           (QKey (VStr "milk")) = Rejected NoResultError).
Proof.
  split.
  - apply (proj1 (missing_record_lookups DbActions.todo_tasks
                    (DbActions.index_on DbActions.todo_tasks "name")
                    (QKey (VNum 9)))).
    reflexivity.
  - apply (proj2 (missing_record_lookups DbActions.todo_tasks
                    (DbActions.index_on DbActions.todo_tasks "name")
                    (QKey (VStr "milk")))).
    reflexivity.
Defined.

(** When records match, [get], [requireGet] and [getPrimaryKey] all speak
    of the first of them: [getPrimaryKey] resolves with its primary key,
    and [get] and [requireGet] with its value.  Only if that stored value
    is [undefined] itself do they part: [requireGet] then rejects with
    [NoResultError] although the record is there. *)
Theorem found_record_lookups (store : DbActions.ObjectStore.t)
    (q : key_query) (r : record) (others : list record) :
  matching (DbActions.ObjectStore.objectStore store) (Some q) = r :: others ->
  ObjectStore.get store q = Resolved (r_value r)
  /\ ObjectStore.getPrimaryKey store q = Resolved (r_primaryKey r)
  /\ (r_value r <> VUndefined ->
      ObjectStore.requireGet store q = Resolved (r_value r))
  /\ (r_value r = VUndefined ->
      ObjectStore.requireGet store q = Rejected NoResultError).
Proof.
  intros Hm.
  unfold ObjectStore.get, ObjectStore.getPrimaryKey, ObjectStore.requireGet,
    host_get, host_getKey. rewrite Hm. simpl.
  repeat split.
  - intros Hv. destruct (r_value r); try reflexivity. congruence.
  - intros ->. reflexivity.
Qed.

Lemma found_record_lookups_witness :
  ObjectStore.get DbActions.todo_tasks (QKey (VNum 2))
  = Resolved (r_value (DbActions.task 2 "bread"))
  /\ ObjectStore.getPrimaryKey DbActions.todo_tasks (QKey (VNum 2))
     = Resolved (r_primaryKey (DbActions.task 2 "bread"))
  /\ (r_value (DbActions.task 2 "bread") <> VUndefined ->
      ObjectStore.requireGet DbActions.todo_tasks (QKey (VNum 2))
      = Resolved (r_value (DbActions.task 2 "bread")))
  /\ (r_value (DbActions.task 2 "bread") = VUndefined ->
      ObjectStore.requireGet DbActions.todo_tasks (QKey (VNum 2))
      = Rejected NoResultError).
Proof.
  apply (found_record_lookups DbActions.todo_tasks (QKey (VNum 2))
           (DbActions.task 2 "bread") []).
  reflexivity.
Defined.

End LookupsFacts.

(* ================================================================== *)
(** ** Properties of index creation and deletion *)
(* ================================================================== *)

Module SchemaFacts.

Import Schema.

Lemma has_index_filter (name other : string) (names : list string) :
  existsb (String.eqb other)
    (filter (fun n => negb (String.eqb name n)) names)
  = negb (String.eqb name other) && existsb (String.eqb other) names.
Proof.
  induction names as [|n names IH]; simpl.
  - now rewrite andb_false_r.
  - destruct (String.eqb_spec name n) as [-> | Hn]; simpl.
    + rewrite IH. destruct (String.eqb_spec other n) as [-> | Ho]; simpl.
      * rewrite String.eqb_refl. reflexivity.
      * reflexivity.
    + rewrite IH. destruct (String.eqb_spec other n) as [-> | Ho]; simpl.
      * destruct (String.eqb_spec name n); [congruence | reflexivity].
      * reflexivity.
Qed.

(** Inside an upgrade transaction [tryDeleteIndex(name)] never throws: it
    returns whether the index existed, the index is gone afterwards, and
    every other index is as it was. *)
Theorem tryDeleteIndex_in_upgrade (name : string) (store : IDBObjectStore) :
  upgrading store = true ->
  fst (tryDeleteIndex name store) = inr (has_index name store)
  /\ has_index name (snd (tryDeleteIndex name store)) = false
  /\ upgrading (snd (tryDeleteIndex name store)) = true
  /\ forall other, other <> name ->
       has_index other (snd (tryDeleteIndex name store))
       = has_index other store.
Proof.
  intros Hu. unfold tryDeleteIndex, host_deleteIndex. rewrite Hu. simpl.
  destruct (has_index name store) eqn:Hhas; simpl.
  - split; [reflexivity |]. unfold has_index. simpl.
    split; [| split; [reflexivity |]].
    + rewrite has_index_filter, String.eqb_refl. reflexivity.
    + intros other Ho. rewrite has_index_filter.
      destruct (String.eqb_spec name other); [congruence | reflexivity].
  - repeat split; trivial.
Qed.

Lemma tryDeleteIndex_in_upgrade_witness :
  fst (tryDeleteIndex "by-name"
         {| indexNames := ["by-name"; "by-done"]; upgrading := true |})
  = inr (has_index "by-name"
           {| indexNames := ["by-name"; "by-done"]; upgrading := true |})
  /\ has_index "by-name"
       (snd (tryDeleteIndex "by-name"
               {| indexNames := ["by-name"; "by-done"]; upgrading := true |}))
     = false
  /\ upgrading
       (snd (tryDeleteIndex "by-name"
               {| indexNames := ["by-name"; "by-done"]; upgrading := true |}))
     = true
  /\ forall other, other <> "by-name" ->
       has_index other
         (snd (tryDeleteIndex "by-name"
                 {| indexNames := ["by-name"; "by-done"];
                    upgrading := true |}))
       = has_index other
           {| indexNames := ["by-name"; "by-done"]; upgrading := true |}.
Proof.
  apply (tryDeleteIndex_in_upgrade "by-name"
           {| indexNames := ["by-name"; "by-done"]; upgrading := true |}).
  reflexivity.
Defined.

(** Outside an upgrade transaction the host's [InvalidStateError] is not
    swallowed: [tryDeleteIndex] throws it again and the store is left as
    it was, whether or not the index exists. *)
Theorem tryDeleteIndex_outside_upgrade (name : string)
    (store : IDBObjectStore) :
  upgrading store = false ->
  tryDeleteIndex name store = (inl (DOMException "InvalidStateError"), store).
Proof.
  intros Hu. unfold tryDeleteIndex, host_deleteIndex. rewrite Hu.
  reflexivity.
Qed.

Lemma tryDeleteIndex_outside_upgrade_witness :
  tryDeleteIndex "by-name"
    {| indexNames := ["by-name"]; upgrading := false |}
  = (inl (DOMException "InvalidStateError"),
     {| indexNames := ["by-name"]; upgrading := false |}).
Proof.
  apply (tryDeleteIndex_outside_upgrade "by-name"
           {| indexNames := ["by-name"]; upgrading := false |}).
  reflexivity.
Defined.

Lemma filter_absent (name : string) (names : list string) :
  existsb (String.eqb name) names = false ->
  filter (fun n => negb (String.eqb name n)) names = names.
Proof.
  induction names as [|n names IH]; simpl; trivial.
  destruct (String.eqb name n); simpl; [discriminate |].
  intros H. now rewrite IH.
Qed.

(** Inside an upgrade transaction, creating an index that did not exist
    and then calling [tryDeleteIndex] on it returns [true] and restores
    the store; a second [tryDeleteIndex] returns [false] and changes
    nothing. *)
Theorem createIndex_then_tryDeleteIndex (name : string)
    (store : IDBObjectStore) :
  upgrading store = true ->
  has_index name store = false ->
  exists created,
    createIndex name store = inr created
    /\ has_index name created = true
    /\ tryDeleteIndex name created = (inr true, store)
    /\ tryDeleteIndex name store = (inr false, store).
Proof.
  intros Hu Hno. unfold createIndex, host_createIndex. rewrite Hu, Hno. simpl.
  eexists. split; [reflexivity |].
  assert (Hhas : has_index name
                   {| indexNames := indexNames store ++ [name];
                      upgrading := true |} = true).
  { unfold has_index. simpl. rewrite existsb_app. simpl.
    rewrite String.eqb_refl. now rewrite orb_true_r. }
  split; [exact Hhas |]. split.
  - unfold tryDeleteIndex, host_deleteIndex. simpl. rewrite Hhas. simpl.
    rewrite filter_app. simpl. rewrite String.eqb_refl. simpl.
    rewrite app_nil_r, (filter_absent name (indexNames store) Hno).
    destruct store as [names u]. simpl in Hu. now subst u.
  - unfold tryDeleteIndex, host_deleteIndex. rewrite Hu, Hno. reflexivity.
Qed.

Lemma createIndex_then_tryDeleteIndex_witness :
  exists created,
    createIndex "by-name" {| indexNames := ["by-done"]; upgrading := true |}
    = inr created
    /\ has_index "by-name" created = true
    /\ tryDeleteIndex "by-name" created
       = (inr true, {| indexNames := ["by-done"]; upgrading := true |})
    /\ tryDeleteIndex "by-name"
         {| indexNames := ["by-done"]; upgrading := true |}
       = (inr false, {| indexNames := ["by-done"]; upgrading := true |}).
Proof.
  apply (createIndex_then_tryDeleteIndex "by-name"
           {| indexNames := ["by-done"]; upgrading := true |}).
  - reflexivity.
  - reflexivity.
Defined.

End SchemaFacts.

(* ================================================================== *)
(** ** Properties of [deleteDatabase] *)
(* ================================================================== *)

Module DeleteDatabaseFacts.

Import DeleteDatabase.

Lemma delete_steps_settled (l : list delete_event) (p : promise unit) :
  p <> Pending -> fold_left delete_step l p = p.
Proof.
  revert p. induction l as [|ev l IH]; intros p Hp; simpl; trivial.
  assert (Hstep : delete_step p ev = p)
    by (destruct ev; simpl; trivial; destruct p; simpl; congruence).
  rewrite Hstep. now apply IH.
Qed.

Lemma delete_steps_blocked (l : list delete_event) (p : promise unit) :
  forallb is_blocked l = true -> fold_left delete_step l p = p.
Proof.
  revert p. induction l as [|ev l IH]; intros p Hl; simpl; trivial.
  simpl in Hl. apply andb_true_iff in Hl as [Hev Hl].
  destruct ev; try discriminate. simpl. now apply IH.
Qed.

(** [deleteDatabase] installs no handler for [blocked]: however many
    [blocked] events come first, the promise waits, and it is the first
    success or error event that settles it, for good. *)
Theorem deleteDatabase_waits_through_blocked (databaseName : string)
    (blocked later : list delete_event) (e : jserror) :
  forallb is_blocked blocked = true ->
  deleteDatabase databaseName blocked = Pending
  /\ deleteDatabase databaseName (blocked ++ DeleteSuccess :: later)
     = Resolved tt
  /\ deleteDatabase databaseName (blocked ++ DeleteError e :: later)
     = Rejected e.
Proof.
  intros Hb. unfold deleteDatabase. rewrite !fold_left_app. simpl.
  rewrite (delete_steps_blocked blocked Pending Hb). simpl.
  split; [reflexivity |].
  split; apply delete_steps_settled; discriminate.
Qed.

Lemma deleteDatabase_waits_through_blocked_witness :
  deleteDatabase "todo-tasks-db" [DeleteBlocked] = Pending
  /\ deleteDatabase "todo-tasks-db"
       ([DeleteBlocked] ++ DeleteSuccess :: []) = Resolved tt
  /\ deleteDatabase "todo-tasks-db"
       ([DeleteBlocked] ++ DeleteError (DOMException "UnknownError") :: [])
     = Rejected (DOMException "UnknownError").
Proof.
  apply (deleteDatabase_waits_through_blocked "todo-tasks-db"
           [DeleteBlocked] [] (DOMException "UnknownError")).
  reflexivity.
Defined.

End DeleteDatabaseFacts.

(* ================================================================== *)
(** ** More properties of [DatabaseDef.open] and [Database.transaction] *)
(* ================================================================== *)

Module ReadingsFacts.

Import DbDeclarations Readings.

(** *** [open] *)

Lemma open_snoc (def : DatabaseDef) (l : list open_event) (ev : open_event) :
  open def (l ++ [ev]) = open_step def (open def l) ev.
Proof. unfold open. now rewrite fold_left_app. Qed.

(** The upgrader is called once for every [upgradeneeded] event, in
    order, with the old and new version of that event, and for nothing
    else; the host's [open] is called once, first. *)
Theorem open_routes_every_upgrade (def : DatabaseDef)
    (events : list open_event) :
  open_trace (open def events)
  = CallOpen (name def) (version def) :: flat_map (upgrade_of def) events.
Proof.
  induction events as [|ev events IH] using rev_ind.
  - reflexivity.
  - rewrite open_snoc, flat_map_app. simpl. rewrite app_nil_r.
    destruct ev; simpl; rewrite IH; trivial; now rewrite app_nil_r.
Qed.

Lemma open_upgrades_pending (def : DatabaseDef) (l : list open_event) :
  forallb is_upgrade l = true -> opened (open def l) = Pending.
Proof.
  induction l as [|ev l IH] using rev_ind; intros Hl; [reflexivity |].
  rewrite forallb_app in Hl. apply andb_true_iff in Hl as [Hl Hev].
  rewrite open_snoc. destruct ev; simpl in Hev; try discriminate.
  simpl. now apply IH.
Qed.

Lemma open_run_app (def : DatabaseDef) (l l' : list open_event) :
  open def (l ++ l') = fold_left (open_step def) l' (open def l).
Proof. unfold open. now rewrite fold_left_app. Qed.

(** If the first event of the open request that is not [upgradeneeded]
    is [success], [open()] resolves with the [Database] wrapping the
    request's result, after the upgrader calls for the events before it;
    if it is [error], [open()] rejects with the request's error.  Later
    events change nothing. *)
Theorem open_settles_on_first_outcome (def : DatabaseDef)
    (upgrades later : list open_event) (e : jserror) :
  forallb is_upgrade upgrades = true ->
  opened (open def (upgrades ++ Success :: later)) = Resolved (opened_db def)
  /\ opened (open def (upgrades ++ OpenError e :: later)) = Rejected e
  /\ open_trace (open def upgrades)
     = CallOpen (name def) (version def)
       :: flat_map (upgrade_of def) upgrades.
Proof.
  intros Hu. pose proof (open_upgrades_pending def upgrades Hu) as Hp.
  split; [| split].
  - rewrite open_run_app. simpl. rewrite OpenFacts.open_steps_settled;
      simpl; rewrite Hp; simpl; [reflexivity | discriminate].
  - rewrite open_run_app. simpl. rewrite OpenFacts.open_steps_settled;
      simpl; rewrite Hp; simpl; [reflexivity | discriminate].
  - clear Hp Hu. induction upgrades as [|ev l IH] using rev_ind.
    + reflexivity.
    + rewrite open_snoc, flat_map_app. simpl. rewrite app_nil_r.
      destruct ev; simpl; rewrite IH; trivial; now rewrite app_nil_r.
Qed.

(** Version 1 on disk, version 2 asked for. *)
Lemma open_settles_on_first_outcome_witness :
  opened (open {| name := "todo-tasks-db"; version := 2 |}
            ([UpgradeNeeded 1 (Some 2)] ++ Success :: []))
  = Resolved (opened_db {| name := "todo-tasks-db"; version := 2 |})
  /\ opened (open {| name := "todo-tasks-db"; version := 2 |}
               ([UpgradeNeeded 1 (Some 2)]
                ++ OpenError (DOMException "AbortError") :: []))
     = Rejected (DOMException "AbortError")
  /\ open_trace (open {| name := "todo-tasks-db"; version := 2 |}
                   [UpgradeNeeded 1 (Some 2)])
     = CallOpen "todo-tasks-db" 2
       :: flat_map (upgrade_of {| name := "todo-tasks-db"; version := 2 |})
            [UpgradeNeeded 1 (Some 2)].
Proof.
  apply (open_settles_on_first_outcome
           {| name := "todo-tasks-db"; version := 2 |}
           [UpgradeNeeded 1 (Some 2)] [] (DOMException "AbortError")).
  reflexivity.
Defined.

(** *** [transaction] *)

(** The action's promise is fulfilled with [v] and then the host reports
    completion: the wrapper resolves with [v], without calling [abort()]
    before, and nothing that happens later changes the outcome. *)
Theorem transaction_resolves_with_action_result (v : jsval)
    (later : list event) :
  returned (run (ActionFulfilled v :: Complete :: later)) = Resolved v
  /\ exists rest,
       trace (run (ActionFulfilled v :: Complete :: later))
       = ResolveCalled v :: rest.
Proof.
  unfold run. simpl. split.
  - rewrite TransactionFacts.steps_settled; simpl; [reflexivity | discriminate].
  - destruct (TransactionFacts.steps_trace later
                (step (step transaction (ActionFulfilled v)) Complete))
      as [t Ht].
    exists t. exact Ht.
Qed.

(** The wrapper listens to [complete] only.  As long as the host does not
    report completion and the action's promise is not rejected (the
    action is fulfilled, the transaction is aborted), the returned
    promise stays pending and the wrapper does nothing. *)
Theorem transaction_pending_without_completion (events : list event) :
  forallb (fun ev => negb (is_complete ev || is_rejection ev)) events = true ->
  returned (run events) = Pending /\ trace (run events) = [].
Proof.
  induction events as [|ev l IH] using rev_ind; intros Hl.
  - now split.
  - rewrite forallb_app in Hl. apply andb_true_iff in Hl as [Hl Hev].
    destruct (IH Hl) as [Hr Ht]. rewrite TransactionFacts.run_snoc.
    destruct ev; simpl in Hev; try discriminate; simpl; now split.
Qed.

(** A request failed, the host aborted the transaction, and the action
    carried on to the end. *)
Lemma transaction_pending_without_completion_witness :
  returned (run [Aborted; ActionFulfilled (VNum 1)]) = Pending
  /\ trace (run [Aborted; ActionFulfilled (VNum 1)]) = [].
Proof.
  apply (transaction_pending_without_completion
           [Aborted; ActionFulfilled (VNum 1)]).
  reflexivity.
Defined.

Lemma filter_snoc {A} (f : A -> bool) (l : list A) (a : A) :
  filter f (l ++ [a]) = filter f l ++ (if f a then [a] else []).
Proof. rewrite filter_app. simpl. now destruct (f a). Qed.

(** The wrapper calls [abort()] once for every rejection of the action's
    promise and never otherwise. *)
Theorem transaction_aborts_only_on_rejection (events : list event) :
  List.length (filter is_abort_call (trace (run events)))
  = List.length (filter is_rejection events).
Proof.
  induction events as [|ev l IH] using rev_ind; [reflexivity |].
  rewrite TransactionFacts.run_snoc, filter_snoc, length_app, <- IH.
  destruct ev; simpl.
  - unfold oncomplete. destruct (negb _); simpl;
      rewrite filter_snoc, length_app; simpl; lia.
  - lia.
  - unfold on_rejected. simpl. destruct (finished (run l)); simpl;
      rewrite !filter_snoc, !length_app; simpl; lia.
  - lia.
Qed.

End ReadingsFacts.

(* ================================================================== *)
(** ** Properties of the iteration methods of PromisedDb.ts *)
(* ================================================================== *)

Module PromisedDbFacts.

Import PromisedDb.

Lemma single_file_loop_idle (fuel : nat) (getter : IDBCursor -> jsval)
    (action : CursorCurrentValue -> settle) (w : world) :
  rq w = Cursor.Idle -> event_loop fuel getter action w = w.
Proof. intros H. destruct fuel; simpl; trivial. now rewrite H. Qed.

(** From the cursor at index [i] on, with enough turns of the loop, the
    event-driven iteration does what [outline] says. *)
Lemma single_file_run_from (getter : IDBCursor -> jsval) (field : record -> jsval)
    (action : CursorCurrentValue -> settle) (is_index : bool)
    (d : IDBCursorDirection) (rs : list record) :
  (forall c r, current c = Some r -> getter c = field r) ->
  forall (k i fuel : nat) (w : world),
    (List.length rs - i = k)%nat ->
    (k < fuel)%nat ->
    settled w = Unsettled ->
    rq w = Cursor.Queued (Succeeds (CursorRuns.at_pos is_index d rs i)) ->
    rq (event_loop fuel getter action w) = Cursor.Idle
    /\ trace (event_loop fuel getter action w)
       = trace w ++ fst (outline field action (skipn i rs))
    /\ settled (event_loop fuel getter action w)
       = snd (outline field action (skipn i rs)).
Proof.
  intros Hg. induction k as [|k IH]; intros i fuel w Hk Hfuel Hs Hq;
    (destruct fuel as [|fuel]; [lia |]); simpl; rewrite Hq.
  - assert (Hnone : CursorRuns.at_pos is_index d rs i = None).
    { unfold CursorRuns.at_pos, cursor_at. simpl.
      destruct (Nat.ltb_spec i (List.length rs)); [lia | reflexivity]. }
    unfold dispatch. rewrite Hq, Hnone. simpl.
    rewrite single_file_loop_idle by reflexivity. simpl.
    rewrite skipn_all2 by lia. simpl. rewrite Hs, app_nil_r.
    now repeat split.
  - assert (Hlt : (i < List.length rs)%nat) by lia.
    destruct (nth_error rs i) as [r|] eqn:Hr;
      [| apply nth_error_None in Hr; lia].
    set (c := {| c_is_index := is_index; c_direction := d; c_records := rs;
                 c_pos := i |}).
    assert (Hsome : CursorRuns.at_pos is_index d rs i = Some c).
    { unfold CursorRuns.at_pos, cursor_at. simpl.
      destruct (Nat.ltb_spec i (List.length rs)); [reflexivity | lia]. }
    assert (Hcur : current c = Some r) by exact Hr.
    assert (Hv : {| value := getter c; primaryKey := Host.primaryKey c |}
                 = current_value field r).
    { unfold current_value, Host.primaryKey. now rewrite (Hg c r Hcur), Hcur. }
    unfold dispatch. rewrite Hq, Hsome. unfold onsuccess. rewrite Hv.
    rewrite (CursorRunsFacts.skipn_nth rs i r Hr). cbn [outline].
    destruct (action (current_value field r)) as [skip | e]; simpl.
    + destruct (truthy skip); simpl.
      * rewrite single_file_loop_idle by reflexivity. simpl. rewrite Hs.
        now repeat split.
      * unfold cursor_continue. simpl.
        match goal with
        | |- context [event_loop fuel getter action ?w1] =>
            destruct (IH (S i) fuel w1) as (Hidle & Htrace & Hset);
              [lia | lia | exact Hs | reflexivity |]
        end.
        rewrite Hidle, Htrace, Hset. simpl.
        rewrite <- !app_assoc. now repeat split.
    + rewrite single_file_loop_idle by reflexivity. simpl. rewrite Hs.
      now repeat split.
Qed.

Lemma iterate_with_outline (with_value : bool) (getter : IDBCursor -> jsval)
    (field : record -> jsval) (s : source) (q : option key_query)
    (d : option IDBCursorDirection) (fuel : nat)
    (action : CursorCurrentValue -> settle) :
  (forall c r, current c = Some r -> getter c = field r) ->
  let rs := cursor_records s q
              (match d with Some d => d | None => next end) in
  (List.length rs < fuel)%nat ->
  rq (iterate_with with_value getter s q d fuel action) = Cursor.Idle
  /\ trace (iterate_with with_value getter s q d fuel action)
     = Open with_value q d :: fst (outline field action rs)
  /\ settled (iterate_with with_value getter s q d fuel action)
     = snd (outline field action rs).
Proof.
  intros Hg rs Hfuel. unfold iterate_with.
  match goal with
  | |- context [event_loop fuel getter action ?w0] =>
      destruct (single_file_run_from getter field action (src_is_index s)
                  (match d with Some d => d | None => next end) rs Hg
                  (List.length rs - 0) 0 fuel w0)
        as (Hidle & Htrace & Hset);
        [reflexivity | lia | reflexivity | reflexivity |]
  end.
  rewrite Hidle, Htrace, Hset. now repeat split.
Qed.

Lemma value_getter (c : IDBCursor) (r : record) :
  current c = Some r -> Host.value c = r_value r.
Proof. intros H. unfold Host.value. now rewrite H. Qed.

Lemma key_getter (c : IDBCursor) (r : record) :
  current c = Some r -> Host.key c = r_key r.
Proof. intros H. unfold Host.key. now rewrite H. Qed.

(** Given enough turns of the event loop, [ObjectStore.iterate] and
    [ObjectStore.iterateKeys] behave as the plain recursion [outline]
    over the records in cursor order: deliver, then stop if the action
    returned a truthy value, fail if it was rejected, and go on otherwise;
    resolve when the records are exhausted. *)
Theorem ObjectStore_iteration_outline (objectStore : source)
    (direction : option IDBCursorDirection) (fuel : nat)
    (action : CursorCurrentValue -> settle) :
  let rs := cursor_records objectStore None
              (match direction with Some d => d | None => next end) in
  (List.length rs < fuel)%nat ->
  (rq (ObjectStore.iterate objectStore fuel action direction) = Cursor.Idle
   /\ trace (ObjectStore.iterate objectStore fuel action direction)
      = Open true None direction :: fst (outline r_value action rs)
   /\ settled (ObjectStore.iterate objectStore fuel action direction)
      = snd (outline r_value action rs))
  /\ (rq (ObjectStore.iterateKeys objectStore fuel action direction)
      = Cursor.Idle
      /\ trace (ObjectStore.iterateKeys objectStore fuel action direction)
         = Open false None direction :: fst (outline r_key action rs)
      /\ settled (ObjectStore.iterateKeys objectStore fuel action direction)
         = snd (outline r_key action rs)).
Proof.
  intros rs Hfuel. split.
  - apply (iterate_with_outline true Host.value r_value objectStore None
             direction fuel action value_getter Hfuel).
  - apply (iterate_with_outline false Host.key r_key objectStore None
             direction fuel action key_getter Hfuel).
Qed.

Lemma ObjectStore_iteration_outline_witness :
  rq (ObjectStore.iterateKeys Cursor.five_keys 6
        (fun _ => Fulfils VUndefined) None) = Cursor.Idle
  /\ trace (ObjectStore.iterateKeys Cursor.five_keys 6
              (fun _ => Fulfils VUndefined) None)
     = Open false None None
       :: fst (outline r_key (fun _ => Fulfils VUndefined)
                 (cursor_records Cursor.five_keys None next))
  /\ settled (ObjectStore.iterateKeys Cursor.five_keys 6
                (fun _ => Fulfils VUndefined) None)
     = snd (outline r_key (fun _ => Fulfils VUndefined)
              (cursor_records Cursor.five_keys None next)).
Proof.
  refine (proj2 (ObjectStore_iteration_outline Cursor.five_keys None 6
                   (fun _ => Fulfils VUndefined) _)).
  simpl. lia.
Defined.

(** The same for [Index.iterateObjects] and [Index.iterateIndexKeys],
    over the records of the index that are in the query. *)
Theorem Index_iteration_outline (index : source) (query : option key_query)
    (direction : option IDBCursorDirection) (fuel : nat)
    (action : CursorCurrentValue -> settle) :
  let rs := cursor_records index query
              (match direction with Some d => d | None => next end) in
  (List.length rs < fuel)%nat ->
  (rq (Index.iterateObjects index fuel action query direction) = Cursor.Idle
   /\ trace (Index.iterateObjects index fuel action query direction)
      = Open true query direction :: fst (outline r_value action rs)
   /\ settled (Index.iterateObjects index fuel action query direction)
      = snd (outline r_value action rs))
  /\ (rq (Index.iterateIndexKeys index fuel action query direction)
      = Cursor.Idle
      /\ trace (Index.iterateIndexKeys index fuel action query direction)
         = Open false query direction :: fst (outline r_key action rs)
      /\ settled (Index.iterateIndexKeys index fuel action query direction)
         = snd (outline r_key action rs)).
Proof.
  intros rs Hfuel. split.
  - apply (iterate_with_outline true Host.value r_value index query
             direction fuel action value_getter Hfuel).
  - apply (iterate_with_outline false Host.key r_key index query
             direction fuel action key_getter Hfuel).
Qed.

Lemma Index_iteration_outline_witness :
  rq (Index.iterateIndexKeys
        (DbActions.host_index
           (DbActions.ObjectStore.objectStore DbActions.todo_tasks) "name")
        3 (fun _ => Fulfils VUndefined) None (Some prev)) = Cursor.Idle
  /\ trace (Index.iterateIndexKeys
              (DbActions.host_index
                 (DbActions.ObjectStore.objectStore DbActions.todo_tasks)
                 "name")
              3 (fun _ => Fulfils VUndefined) None (Some prev))
     = Open false None (Some prev)
       :: fst (outline r_key (fun _ => Fulfils VUndefined)
                 (cursor_records
                    (DbActions.host_index
                       (DbActions.ObjectStore.objectStore
                          DbActions.todo_tasks) "name") None prev))
  /\ settled (Index.iterateIndexKeys
                (DbActions.host_index
                   (DbActions.ObjectStore.objectStore DbActions.todo_tasks)
                   "name")
                3 (fun _ => Fulfils VUndefined) None (Some prev))
     = snd (outline r_key (fun _ => Fulfils VUndefined)
              (cursor_records
                 (DbActions.host_index
                    (DbActions.ObjectStore.objectStore DbActions.todo_tasks)
                    "name") None prev)).
Proof.
  refine (proj2 (Index_iteration_outline
                   (DbActions.host_index
                      (DbActions.ObjectStore.objectStore DbActions.todo_tasks)
                      "name")
                   None (Some prev) 3 (fun _ => Fulfils VUndefined) _)).
  simpl. lia.
Defined.

(** *** Stopping *)

Lemma deliveries_app (t t' : list obs) :
  deliveries (t ++ t') = deliveries t ++ deliveries t'.
Proof.
  induction t as [|o t IH]; simpl; trivial.
  destruct o; simpl; now rewrite IH.
Qed.

Lemma outline_goes_on (field : record -> jsval)
    (action : CursorCurrentValue -> settle) (pre l : list record) :
  forallb (goes_on field action) pre = true ->
  deliveries (fst (outline field action (pre ++ l)))
  = map (current_value field) pre
    ++ deliveries (fst (outline field action l))
  /\ snd (outline field action (pre ++ l)) = snd (outline field action l)
  /\ List.length (filter (fun o => match o with
                                   | ContinueCalled => true
                                   | _ => false
                                   end)
                    (fst (outline field action (pre ++ l))))
     = (List.length pre
        + List.length (filter (fun o => match o with
                                        | ContinueCalled => true
                                        | _ => false
                                        end)
                         (fst (outline field action l))))%nat.
Proof.
  induction pre as [|r pre IH]; intros Hpre; simpl.
  - now repeat split.
  - simpl in Hpre. apply andb_true_iff in Hpre as [Hr Hpre].
    destruct (IH Hpre) as (Hd & Hs & Hc).
    unfold goes_on in Hr.
    destruct (action (current_value field r)) as [skip | e];
      [| discriminate].
    destruct (truthy skip); [discriminate |]. simpl.
    rewrite Hd, Hs, Hc. now repeat split.
Qed.

(** Returning a truthy value stops [ObjectStore.iterateKeys]: if the
    action asks to go on for the records [before] and returns a truthy
    value at [r], then exactly [before] and [r] are delivered, one
    [cursor.continue()] is issued per record of [before], the promise
    resolves, and no record after [r] is touched. *)
Theorem iterateKeys_stops_on_truthy (objectStore : source)
    (direction : option IDBCursorDirection) (fuel : nat)
    (action : CursorCurrentValue -> settle) (before after : list record)
    (r : record) (skip : jsval) :
  cursor_records objectStore None
    (match direction with Some d => d | None => next end)
  = before ++ r :: after ->
  forallb (goes_on r_key action) before = true ->
  action (current_value r_key r) = Fulfils skip ->
  truthy skip = true ->
  (List.length (before ++ r :: after) < fuel)%nat ->
  let w := ObjectStore.iterateKeys objectStore fuel action direction in
  settled w = Done
  /\ deliveries (trace w) = map (current_value r_key) (before ++ [r])
  /\ List.length (filter (fun o => match o with
                                   | ContinueCalled => true
                                   | _ => false
                                   end) (trace w))
     = List.length before
  /\ rq w = Cursor.Idle.
Proof.
  intros Hrs Hbefore Ha Hskip Hfuel w.
  destruct (iterate_with_outline false Host.key r_key objectStore None
              direction fuel action key_getter)
    as (Hidle & Htrace & Hset).
  { cbv zeta. rewrite Hrs. exact Hfuel. }
  fold (ObjectStore.iterateKeys objectStore fuel action direction) in *.
  fold w in Hidle, Htrace, Hset. rewrite Hrs in Htrace, Hset.
  destruct (outline_goes_on r_key action before (r :: after) Hbefore)
    as (Hd & Hs & Hc).
  simpl in Hd, Hs, Hc. rewrite Ha, Hskip in Hd, Hs, Hc. simpl in Hd, Hs, Hc.
  rewrite Hset, Htrace. simpl. rewrite Hd, Hs, Hc, map_app. simpl.
  repeat split; trivial. lia.
Qed.

(** Keys 1 to 5, stopping at key 3: this time keys 4 and 5 are left
    alone. *)
Lemma iterateKeys_stops_on_truthy_witness :
  let w := ObjectStore.iterateKeys Cursor.five_keys 6
             (fun v => match value v with
                       | VNum 3 => Fulfils (VBool true)
                       | _ => Fulfils VUndefined
                       end) None in
  settled w = Done
  /\ deliveries (trace w)
     = map (current_value r_key)
         (firstn 2 (src_records Cursor.five_keys)
          ++ [{| r_key := VNum 3; r_primaryKey := VNum 3;
                 r_value := VObj [("id", VNum 3)] |}])
  /\ List.length (filter (fun o => match o with
                                   | ContinueCalled => true
                                   | _ => false
                                   end) (trace w))
     = List.length (firstn 2 (src_records Cursor.five_keys))
  /\ rq w = Cursor.Idle.
Proof.
  apply (iterateKeys_stops_on_truthy Cursor.five_keys None 6
           (fun v => match value v with
                     | VNum 3 => Fulfils (VBool true)
                     | _ => Fulfils VUndefined
                     end)
           (firstn 2 (src_records Cursor.five_keys))
           (skipn 3 (src_records Cursor.five_keys))
           {| r_key := VNum 3; r_primaryKey := VNum 3;
              r_value := VObj [("id", VNum 3)] |}
           (VBool true)).
  - reflexivity.
  - reflexivity.
  - reflexivity.
  - reflexivity.
  - simpl. lia.
Defined.

(** A rejected action rejects the iteration: if the action asks to go on
    for the records [before] and its promise is rejected with [e] at [r],
    then [before] and [r] are delivered, nothing after, and the returned
    promise is rejected with [e]. *)
Theorem iterateKeys_rejects_with_the_action (objectStore : source)
    (direction : option IDBCursorDirection) (fuel : nat)
    (action : CursorCurrentValue -> settle) (before after : list record)
    (r : record) (e : jserror) :
  cursor_records objectStore None
    (match direction with Some d => d | None => next end)
  = before ++ r :: after ->
  forallb (goes_on r_key action) before = true ->
  action (current_value r_key r) = Rejects e ->
  (List.length (before ++ r :: after) < fuel)%nat ->
  let w := ObjectStore.iterateKeys objectStore fuel action direction in
  settled w = Failed (Err e)
  /\ deliveries (trace w) = map (current_value r_key) (before ++ [r])
  /\ rq w = Cursor.Idle.
Proof.
  intros Hrs Hbefore Ha Hfuel w.
  destruct (iterate_with_outline false Host.key r_key objectStore None
              direction fuel action key_getter)
    as (Hidle & Htrace & Hset).
  { cbv zeta. rewrite Hrs. exact Hfuel. }
  fold (ObjectStore.iterateKeys objectStore fuel action direction) in *.
  fold w in Hidle, Htrace, Hset. rewrite Hrs in Htrace, Hset.
  destruct (outline_goes_on r_key action before (r :: after) Hbefore)
    as (Hd & Hs & _).
  simpl in Hd, Hs. rewrite Ha in Hd, Hs. simpl in Hd, Hs.
  rewrite Hset, Htrace. simpl. rewrite Hd, Hs, map_app. simpl.
  now repeat split.
Qed.

Lemma iterateKeys_rejects_with_the_action_witness :
  let w := ObjectStore.iterateKeys Cursor.five_keys 6
             (fun v => match value v with
                       | VNum 2 => Rejects (Error "boom")
                       | _ => Fulfils VUndefined
                       end) None in
  settled w = Failed (Err (Error "boom"))
  /\ deliveries (trace w)
     = map (current_value r_key)
         (firstn 1 (src_records Cursor.five_keys)
          ++ [{| r_key := VNum 2; r_primaryKey := VNum 2;
                 r_value := VObj [("id", VNum 2)] |}])
  /\ rq w = Cursor.Idle.
Proof.
  apply (iterateKeys_rejects_with_the_action Cursor.five_keys None 6
           (fun v => match value v with
                     | VNum 2 => Rejects (Error "boom")
                     | _ => Fulfils VUndefined
                     end)
           (firstn 1 (src_records Cursor.five_keys))
           (skipn 2 (src_records Cursor.five_keys))
           {| r_key := VNum 2; r_primaryKey := VNum 2;
              r_value := VObj [("id", VNum 2)] |}
           (Error "boom")).
  - reflexivity.
  - reflexivity.
  - reflexivity.
  - simpl. lia.
Defined.

End PromisedDbFacts.
